(** * MDB_BOT: the contract-address pipeline of [main.py] / [app.py]

    A shallow embedding of the Telegram userbot of [src/MDB_BOT/main.py]
    ([app.py] carries the same pipeline code, without the health-check
    server): the address extractor [extract_ca], the shared dictionary
    [pending_ca_for_analysis], the seven event handlers registered on the
    client, and the way the client walks its handler list for one update.

    Modelling choices, each taken from the source:
    - a Python [str] is a list of Unicode code points ([pystr]);
    - [pending_ca_for_analysis] is an insertion-ordered association list:
      the handlers iterate [.items()] and stop at the first hit, so order
      is observable;
    - the values of the dictionary are the five state strings of the
      source, an enumeration here;
    - [client.send_message] is the only way out: the network is an oracle
      [net] telling, per peer and text, whether the call returns or raises;
    - every [logging] call is a record in the world's log;
    - exceptions are explicit ([result]); [raise events.StopPropagation]
      is one of them and the dispatcher reacts to it as the client does;
    - the client handles each update in a task of its own: [on_event]
      and [run] handle one update after another, each to its end, and
      [handler_step] gives the steps of every schedule, a forward
      handler overtaken at its send included. *)

From Stdlib Require Import String Ascii List Bool Arith NArith ZArith Lia Relations.
Import ListNotations.

Set Implicit Arguments.

(** ** Python strings *)

Definition char := N.
Definition pystr := list char.

Definition char_eqb (a b : char) : bool := N.eqb a b.

Fixpoint pystr_eqb (a b : pystr) : bool :=
  match a, b with
  | [], [] => true
  | x :: a', y :: b' => char_eqb x y && pystr_eqb a' b'
  | _, _ => false
  end.

(** ASCII literals of the source, as code points. *)
Fixpoint lit (s : string) : pystr :=
  match s with
  | EmptyString => []
  | String c s' => N_of_ascii c :: lit s'
  end.

(** U+1F525 FIRE and U+1FA99 COIN, the two marker glyphs. *)
Definition fire : pystr := [0x1F525%N].
Definition coin : pystr := [0x1FA99%N].

(** [c.isspace()]: the code points Python's [str.strip()] removes. *)
Definition in_range (lo hi c : N) : bool := (lo <=? c)%N && (c <=? hi)%N.

Definition isspace (c : char) : bool :=
  in_range 0x09 0x0D c || in_range 0x1C 0x20 c || N.eqb c 0x85
  || N.eqb c 0xA0 || N.eqb c 0x1680 || in_range 0x2000 0x200A c
  || N.eqb c 0x2028 || N.eqb c 0x2029 || N.eqb c 0x202F
  || N.eqb c 0x205F || N.eqb c 0x3000.

Fixpoint lstrip (s : pystr) : pystr :=
  match s with
  | [] => []
  | c :: s' => if isspace c then lstrip s' else s
  end.

Definition rstrip (s : pystr) : pystr := rev (lstrip (rev s)).

(** [s.strip()] *)
Definition strip (s : pystr) : pystr := rstrip (lstrip s).

(** [s.startswith(p)] *)
Fixpoint startswith (s p : pystr) : bool :=
  match p, s with
  | [], _ => true
  | _ :: _, [] => false
  | x :: p', y :: s' => char_eqb x y && startswith s' p'
  end.

(** [sub in s] *)
Fixpoint str_in (sub s : pystr) : bool :=
  startswith s sub ||
  match s with
  | [] => false
  | _ :: s' => str_in sub s'
  end.

(** Truth value of a string: [if s:] *)
Definition truthy (s : pystr) : bool :=
  match s with [] => false | _ :: _ => true end.

(** ** The two compiled patterns and [findall] *)

(** [[1-9A-HJ-NP-Za-km-z]] *)
Definition is_base58 (c : char) : bool :=
  in_range 49 57 c || in_range 65 72 c || in_range 74 78 c
  || in_range 80 90 c || in_range 97 107 c || in_range 109 122 c.

(** [[a-fA-F0-9]] *)
Definition is_hex (c : char) : bool :=
  in_range 97 102 c || in_range 65 70 c || in_range 48 57 c.

(** The longest prefix of [s] made of at most [n] characters of a class:
    what a greedy bounded repetition consumes. *)
Fixpoint greedy (cls : char -> bool) (n : nat) (s : pystr) : pystr :=
  match n, s with
  | S n', c :: s' => if cls c then c :: greedy cls n' s' else []
  | _, _ => []
  end.

(** A pattern is given by its match at the start of a string. *)
Definition pattern := pystr -> option pystr.

(** [[1-9A-HJ-NP-Za-km-z]{32,44}] *)
Definition solana_address_pattern : pattern := fun s =>
  let run := greedy is_base58 44 s in
  if 32 <=? length run then Some run else None.

(** [0x[a-fA-F0-9]{40}] *)
Definition evm_address_pattern : pattern := fun s =>
  match s with
  | 48%N :: 120%N :: rest =>
      let run := greedy is_hex 40 rest in
      if length run =? 40 then Some (48%N :: 120%N :: run) else None
  | _ => None
  end.

(** [pattern.findall(s)]: leftmost matches, none overlapping. [skip]
    counts the characters of the last match still to be stepped over. *)
Fixpoint findall_from (p : pattern) (skip : nat) (s : pystr) : list pystr :=
  match s with
  | [] => []
  | _ :: s' =>
      match skip with
      | S k => findall_from p k s'
      | O =>
          match p s with
          | Some m => m :: findall_from p (pred (length m)) s'
          | None => findall_from p 0 s'
          end
      end
  end.

Definition findall (p : pattern) (s : pystr) : list pystr := findall_from p 0 s.

(** ** Exceptions *)

(** The exception classes the pipeline meets; all derive from
    [Exception], [events.StopPropagation] included. *)
Inductive exn : Type :=
| StopPropagation
| ImportError
| ValueError
| RPCError (code : N).

Inductive result (A : Type) : Type :=
| Ok (a : A)
| Raise (e : exn).
Arguments Ok {A} a.
Arguments Raise {A} e.

Definition rbind {A B} (m : result A) (k : A -> result B) : result B :=
  match m with
  | Ok a => k a
  | Raise e => Raise e
  end.

(** [try: body  except Exception: handler] *)
Definition try_except {A} (body : result A) (handler : exn -> result A)
  : result A :=
  match body with
  | Ok a => Ok a
  | Raise e => handler e
  end.

Declare Scope result_scope.
Delimit Scope result_scope with result.
Notation "x <- m ;; k" := (rbind m (fun x => k))
  (at level 61, m at next level, right associativity) : result_scope.
Notation "m ;;; k" := (rbind m (fun _ => k))
  (at level 61, right associativity) : result_scope.

(** ** Messages *)

Inductive peer : Type :=
| channel_a_username
| channel_b_username
| soul_scanner_bot_username
| phanes_bot_username
| sol_target_group
| bnb_target_group
| other_chat (id : N).

Definition peer_eqb (a b : peer) : bool :=
  match a, b with
  | channel_a_username, channel_a_username
  | channel_b_username, channel_b_username
  | soul_scanner_bot_username, soul_scanner_bot_username
  | phanes_bot_username, phanes_bot_username
  | sol_target_group, sol_target_group
  | bnb_target_group, bnb_target_group => true
  | other_chat i, other_chat j => N.eqb i j
  | _, _ => false
  end.

(** A message entity: a text link with its url, or any other kind. *)
Inductive entity : Type :=
| MessageEntityTextUrl (url : pystr)
| OtherEntity.

(** What a handler reads of a [NewMessage] event. An absent entity list
    ([None]) and an empty one are both the empty list: the source only
    tests its truth value. *)
Record event : Type := Event {
  chat : peer;
  raw_text : pystr;
  entities : list entity
}.

(** ** A reference decoder

    [solders] is not part of the repository: the extractor below takes
    the decoder as a parameter. This is the instance used when a concrete
    run is evaluated: base58 (Bitcoin alphabet) into exactly 32 bytes. *)

Definition base58_alphabet : pystr :=
  lit "123456789ABCDEFGHJKLMNPQRSTUVWXYZabcdefghijkmnopqrstuvwxyz".

Fixpoint index_of (c : char) (l : pystr) : option N :=
  match l with
  | [] => None
  | x :: l' =>
      if char_eqb c x then Some 0%N
      else match index_of c l' with
           | Some i => Some (N.succ i)
           | None => None
           end
  end.

Fixpoint base58_value (acc : N) (s : pystr) : option N :=
  match s with
  | [] => Some acc
  | c :: s' =>
      match index_of c base58_alphabet with
      | Some d => base58_value (acc * 58 + d)%N s'
      | None => None
      end
  end.

Fixpoint leading_ones (s : pystr) : nat :=
  match s with
  | 49%N :: s' => S (leading_ones s')
  | _ => 0
  end.

(** Number of bytes of the big-endian writing of [n], none for zero. *)
Definition byte_length (n : N) : nat := N.to_nat ((N.size n + 7) / 8).

Definition pubkey := N.

Definition base58_Pubkey_from_string (s : pystr) : result pubkey :=
  if 44 <? length s then Raise ValueError
  else match base58_value 0 s with
       | Some v =>
           if leading_ones s + byte_length v =? 32 then Ok v
           else Raise ValueError
       | None => Raise ValueError
       end.


(** ** The pending dictionary *)

(** The state strings stored in [pending_ca_for_analysis]. *)
Inductive state : Type :=
| a_soul_scanner
| a_waiting_for_th_response
| a_waiting_for_tt_response
| b_waiting_for_response
| b_waiting_for_tt_response.

Definition state_eqb (a b : state) : bool :=
  match a, b with
  | a_soul_scanner, a_soul_scanner
  | a_waiting_for_th_response, a_waiting_for_th_response
  | a_waiting_for_tt_response, a_waiting_for_tt_response
  | b_waiting_for_response, b_waiting_for_response
  | b_waiting_for_tt_response, b_waiting_for_tt_response => true
  | _, _ => false
  end.

(** A Python [dict] from address to state, in insertion order. *)
Definition dict := list (pystr * state).

(** [d.get(k)] *)
Fixpoint dict_get (d : dict) (k : pystr) : option state :=
  match d with
  | [] => None
  | (k', v) :: d' => if pystr_eqb k k' then Some v else dict_get d' k
  end.

(** [k in d] *)
Definition dict_in (k : pystr) (d : dict) : bool :=
  match dict_get d k with Some _ => true | None => false end.

(** [d[k] = v]: a present key keeps its place, a new one goes last. *)
Fixpoint dict_set (d : dict) (k : pystr) (v : state) : dict :=
  match d with
  | [] => [(k, v)]
  | (k', v') :: d' =>
      if pystr_eqb k k' then (k', v) :: d' else (k', v') :: dict_set d' k v
  end.

(** [del d[k]], called under [if k in d]. *)
Fixpoint dict_del (d : dict) (k : pystr) : dict :=
  match d with
  | [] => []
  | (k', v') :: d' =>
      if pystr_eqb k k' then d' else (k', v') :: dict_del d' k
  end.

(** The loop shared by the five correlators:
    [found_ca = None
     for ca, state in pending_ca_for_analysis.items():
         if cond(ca, state): found_ca = ca; break] *)
Fixpoint first_item (cond : pystr -> state -> bool) (items : dict)
  : option pystr :=
  match items with
  | [] => None
  | (ca, st) :: rest => if cond ca st then Some ca else first_item cond rest
  end.

(** Truth value of an [Optional[str]]: [None] and the empty string are
    false. *)
Definition found (o : option pystr) : option pystr :=
  match o with
  | Some ca => if truthy ca then Some ca else None
  | None => None
  end.

(** ** The world of the handlers *)

Inductive level : Type := INFO | WARNING | ERROR.

(** One constructor per [logging] call of the source, with the values
    its f-string interpolates. *)
Inductive logmsg : Type :=
| PipelineA_Skip_no_marker
| PipelineA_START (ca : pystr)
| PipelineA_Skip_no_CA
| PipelineA_Step2 (ca : pystr)
| PipelineA_Step3 (ca : pystr)
| PipelineA_Final_Step (ca : pystr)
| Pipeline_ERROR_A (e : exn)
| PipelineB_Skip_no_marker
| PipelineB_START (ca : pystr)
| PipelineB_Skip_no_CA
| PipelineB_Step2 (ca : pystr)
| PipelineB_Final_Step (ca : pystr)
| Pipeline_ERROR_B (e : exn)
| Already_in_pipeline (ca : pystr)
| Pipeline_SUCCESS (ca : pystr) (group : peer)
| Unhandled_exception (e : exn).

(** The network: what [client.send_message(peer, text)] does. *)
Definition net := peer -> pystr -> option exn.

Record world : Type := World {
  pending_ca_for_analysis : dict;
  (** calls of [client.send_message], oldest first *)
  sent : list (peer * pystr);
  (** [logging] records, oldest first *)
  logs : list (level * logmsg)
}.

(** A coroutine body: reads the network, changes the world, returns or
    raises. *)
Definition M (A : Type) : Type := net -> world -> result A * world.

Definition ret {A} (a : A) : M A := fun _ w => (Ok a, w).

Definition bind {A B} (m : M A) (k : A -> M B) : M B := fun n w =>
  match m n w with
  | (Ok a, w') => k a n w'
  | (Raise e, w') => (Raise e, w')
  end.

Definition raise {A} (e : exn) : M A := fun _ w => (Raise e, w).

Definition lift {A} (r : result A) : M A := fun _ w => (r, w).

(** [try: body  except Exception as e: handler(e)] *)
Definition try_except_M {A} (body : M A) (handler : exn -> M A) : M A :=
  fun n w =>
    match body n w with
    | (Ok a, w') => (Ok a, w')
    | (Raise e, w') => handler e n w'
    end.

Declare Scope handler_scope.
Delimit Scope handler_scope with handler.
Notation "x <- m ;; k" := (bind m (fun x => k))
  (at level 61, m at next level, right associativity) : handler_scope.
Notation "m ;;; k" := (bind m (fun _ => k))
  (at level 61, right associativity) : handler_scope.

Definition get_pending : M dict :=
  fun _ w => (Ok (pending_ca_for_analysis w), w).

Definition put_pending (d : dict) : M unit :=
  fun _ w => (Ok tt, World d (sent w) (logs w)).

(** [pending_ca_for_analysis[k] = v] *)
Definition setitem (k : pystr) (v : state) : M unit :=
  fun _ w => (Ok tt, World (dict_set (pending_ca_for_analysis w) k v)
                           (sent w) (logs w)).

(** [del pending_ca_for_analysis[k]] *)
Definition delitem (k : pystr) : M unit :=
  fun _ w => (Ok tt, World (dict_del (pending_ca_for_analysis w) k)
                           (sent w) (logs w)).

Definition logging (l : level) (m : logmsg) : M unit :=
  fun _ w => (Ok tt, World (pending_ca_for_analysis w) (sent w)
                           (logs w ++ [(l, m)])).

(** [await client.send_message(p, text)] *)
Definition send_message (p : peer) (text : pystr) : M unit :=
  fun n w =>
    let w' := World (pending_ca_for_analysis w) (sent w ++ [(p, text)])
                    (logs w) in
    match n p text with
    | None => (Ok tt, w')
    | Some e => (Raise e, w')
    end.

(** ** The extractor and the handlers *)

(** [from solders.pubkey import Pubkey] and [Pubkey.from_string]: the
    library is outside the repository, so it is an interface here; both
    the import and the decoding may raise. *)
Class Solders : Type := {
  import_Pubkey : result unit;
  Pubkey_from_string : pystr -> result pubkey
}.

Section Pipeline.

Context {solders : Solders}.

Definition is_valid_solana_address (address : pystr) : result bool :=
  try_except
    (import_Pubkey ;;; Pubkey_from_string address ;;; Ok true)%result
    (fun _ => Ok false).

(** The inner loop of [extract_ca]:
    [for addr in matches:
         if not is_bnb_channel and is_valid_solana_address(addr): return addr
         elif is_bnb_channel: return addr]
    [Some addr] is the [return addr]; [None] is the loop running out. *)
Fixpoint first_valid (is_bnb_channel : bool) (matches : list pystr)
  : result (option pystr) :=
  match matches with
  | [] => Ok None
  | addr :: rest =>
      (c <- (if negb is_bnb_channel then is_valid_solana_address addr
             else Ok false) ;;
       if c then Ok (Some addr)
       else if is_bnb_channel then Ok (Some addr)
       else first_valid is_bnb_channel rest)%result
  end.

(** The loop over [event.message.entities]. [found_ca] is never
    assigned in the source, so its [if found_ca: break] never fires. *)
Fixpoint scan_entities (p : pattern) (is_bnb_channel : bool)
         (ents : list entity) : result (option pystr) :=
  match ents with
  | [] => Ok None
  | MessageEntityTextUrl url :: rest =>
      (r <- first_valid is_bnb_channel (findall p url) ;;
       match r with
       | Some addr => Ok (Some addr)
       | None => scan_entities p is_bnb_channel rest
       end)%result
  | OtherEntity :: rest => scan_entities p is_bnb_channel rest
  end.

Definition extract_ca (ev : event) (is_bnb_channel : bool)
  : result (option pystr) :=
  let p := if is_bnb_channel then evm_address_pattern
           else solana_address_pattern in
  let found_ca : option pystr := None in
  (r <- scan_entities p is_bnb_channel (entities ev) ;;
   match r with
   | Some addr => Ok (Some addr)
   | None =>
       match found found_ca with
       | Some ca => Ok None
       | None =>
           r' <- first_valid is_bnb_channel (findall p (raw_text ev)) ;;
           match r' with
           | Some addr => Ok (Some addr)
           | None => Ok None
           end
       end
   end)%result.

Open Scope handler_scope.

(** STEP A1 *)
Definition sol_handler (ev : event) : M unit :=
  let raw := strip (raw_text ev) in
  if negb (startswith raw fire) then logging INFO PipelineA_Skip_no_marker
  else
    found_ca_to_send <- lift (extract_ca ev false) ;;
    match found found_ca_to_send with
    | Some ca =>
        pending <- get_pending ;;
        if dict_in ca pending then logging WARNING (Already_in_pipeline ca)
        else
          setitem ca a_soul_scanner ;;;
          logging INFO (PipelineA_START ca) ;;;
          send_message soul_scanner_bot_username ca
    | None => logging INFO PipelineA_Skip_no_CA
    end.

(** STEP A2 *)
Definition sol_soul_scanner_handler (ev : event) : M unit :=
  pending <- get_pending ;;
  match found (first_item
                 (fun ca st => state_eqb st a_soul_scanner
                               && str_in ca (raw_text ev)) pending) with
  | None => ret tt
  | Some found_ca =>
      setitem found_ca a_waiting_for_th_response ;;;
      logging INFO (PipelineA_Step2 found_ca) ;;;
      send_message phanes_bot_username (lit "/th " ++ found_ca)
  end.

(** STEP A3 *)
Definition sol_phanes_th_response_handler (ev : event) : M unit :=
  pending <- get_pending ;;
  match found (first_item
                 (fun ca st => state_eqb st a_waiting_for_th_response)
                 pending) with
  | None => ret tt
  | Some found_ca =>
      logging INFO (PipelineA_Step3 found_ca) ;;;
      setitem found_ca a_waiting_for_tt_response ;;;
      send_message phanes_bot_username (lit "/tt " ++ found_ca) ;;;
      raise StopPropagation
  end.

(** STEP A4 *)
Definition sol_phanes_tt_response_handler (ev : event) : M unit :=
  pending <- get_pending ;;
  match found (first_item
                 (fun ca st => state_eqb st a_waiting_for_tt_response)
                 pending) with
  | None => ret tt
  | Some found_ca =>
      logging INFO (PipelineA_Final_Step found_ca) ;;;
      try_except_M
        (send_message sol_target_group found_ca ;;;
         logging INFO (Pipeline_SUCCESS found_ca sol_target_group))
        (fun e => logging ERROR (Pipeline_ERROR_A e)) ;;;
      pending' <- get_pending ;;
      if dict_in found_ca pending' then delitem found_ca else ret tt
  end.

(** STEP B1 *)
Definition bnb_handler (ev : event) : M unit :=
  let raw := strip (raw_text ev) in
  if negb (startswith raw coin) then logging INFO PipelineB_Skip_no_marker
  else
    found_ca_to_send <- lift (extract_ca ev true) ;;
    match found found_ca_to_send with
    | Some ca =>
        pending <- get_pending ;;
        if dict_in ca pending then logging WARNING (Already_in_pipeline ca)
        else
          setitem ca b_waiting_for_response ;;;
          logging INFO (PipelineB_START ca) ;;;
          send_message phanes_bot_username ca
    | None => logging INFO PipelineB_Skip_no_CA
    end.

(** STEP B2 *)
Definition bnb_phanes_initial_response_handler (ev : event) : M unit :=
  pending <- get_pending ;;
  match found (first_item
                 (fun ca st => state_eqb st b_waiting_for_response)
                 pending) with
  | None => ret tt
  | Some found_ca =>
      logging INFO (PipelineB_Step2 found_ca) ;;;
      setitem found_ca b_waiting_for_tt_response ;;;
      send_message phanes_bot_username (lit "/tt " ++ found_ca) ;;;
      raise StopPropagation
  end.

(** STEP B3 *)
Definition bnb_phanes_tt_response_handler (ev : event) : M unit :=
  pending <- get_pending ;;
  match found (first_item
                 (fun ca st => state_eqb st b_waiting_for_tt_response)
                 pending) with
  | None => ret tt
  | Some found_ca =>
      logging INFO (PipelineB_Final_Step found_ca) ;;;
      try_except_M
        (send_message bnb_target_group found_ca ;;;
         logging INFO (Pipeline_SUCCESS found_ca bnb_target_group))
        (fun e => logging ERROR (Pipeline_ERROR_B e)) ;;;
      pending' <- get_pending ;;
      if dict_in found_ca pending' then delitem found_ca else ret tt
  end.

(** The handlers in the order [@client.on] registers them, each with
    the chat its [events.NewMessage(chats=...)] filter lets through. *)
Definition event_builders : list (peer * (event -> M unit)) :=
  [ (channel_a_username, sol_handler);
    (soul_scanner_bot_username, sol_soul_scanner_handler);
    (phanes_bot_username, sol_phanes_th_response_handler);
    (phanes_bot_username, sol_phanes_tt_response_handler);
    (channel_b_username, bnb_handler);
    (phanes_bot_username, bnb_phanes_initial_response_handler);
    (phanes_bot_username, bnb_phanes_tt_response_handler) ].

(** How the client hands one update to its handlers: in registration
    order, each handler whose filter matches is awaited;
    [StopPropagation] ends the walk, any other exception is logged and
    the walk goes on. *)
Fixpoint dispatch_update (builders : list (peer * (event -> M unit)))
         (ev : event) (n : net) (w : world) : world :=
  match builders with
  | [] => w
  | (chats, callback) :: rest =>
      if peer_eqb (chat ev) chats then
        match callback ev n w with
        | (Ok _, w') => dispatch_update rest ev n w'
        | (Raise StopPropagation, w') => w'
        | (Raise e, w') =>
            dispatch_update rest ev n
              (World (pending_ca_for_analysis w') (sent w')
                     (logs w' ++ [(ERROR, Unhandled_exception e)]))
        end
      else dispatch_update rest ev n w
  end.

Definition on_event (ev : event) (n : net) (w : world) : world :=
  dispatch_update event_builders ev n w.

(** A run: updates handled one after the other, each with the network
    as it is at that time. *)
Fixpoint run (updates : list (event * net)) (w : world) : world :=
  match updates with
  | [] => w
  | (ev, n) :: rest => run rest (on_event ev n w)
  end.

Close Scope handler_scope.

End Pipeline.


(** The reference decoder as an instance of the interface. *)
#[export] Instance base58_solders : Solders := {
  import_Pubkey := Ok tt;
  Pubkey_from_string := base58_Pubkey_from_string
}.

Definition initial_world : world := World [] [] [].

(** The network on a good day: every call returns. *)
Definition net_ok : net := fun _ _ => None.

(** The network when the destination groups cannot be reached. *)
Definition net_no_forward : net := fun p _ =>
  match p with
  | sol_target_group | bnb_target_group => Some (RPCError 400)
  | _ => None
  end.

(** ** Stages, in the vocabulary of the specification *)

Inductive chain : Type := SOL | BNB.

Inductive stage : Type :=
| Detected
| SentToScanner
| AwaitingStepOneReply
| AwaitingStepTwoReply
| Forward.

Definition chain_eqb (a b : chain) : bool :=
  match a, b with
  | SOL, SOL | BNB, BNB => true
  | _, _ => false
  end.

Definition stage_eqb (a b : stage) : bool :=
  match a, b with
  | Detected, Detected
  | SentToScanner, SentToScanner
  | AwaitingStepOneReply, AwaitingStepOneReply
  | AwaitingStepTwoReply, AwaitingStepTwoReply
  | Forward, Forward => true
  | _, _ => false
  end.

(** Pipeline A states start with [a_], pipeline B states with [b_]. *)
Definition chain_of (s : state) : chain :=
  match s with
  | a_soul_scanner | a_waiting_for_th_response
  | a_waiting_for_tt_response => SOL
  | b_waiting_for_response | b_waiting_for_tt_response => BNB
  end.

Definition stage_of (s : state) : stage :=
  match s with
  | a_soul_scanner => SentToScanner
  | a_waiting_for_th_response | b_waiting_for_response =>
      AwaitingStepOneReply
  | a_waiting_for_tt_response | b_waiting_for_tt_response =>
      AwaitingStepTwoReply
  end.

Definition stage_sequence (c : chain) : list stage :=
  match c with
  | SOL => [Detected; SentToScanner; AwaitingStepOneReply;
            AwaitingStepTwoReply; Forward]
  | BNB => [Detected; AwaitingStepOneReply; AwaitingStepTwoReply; Forward]
  end.

(** [y] comes right after [x] in [l]. *)
Fixpoint next_in (l : list stage) (x y : stage) : bool :=
  match l with
  | a :: (b :: _) as l' => (stage_eqb a x && stage_eqb b y) || next_in l' x y
  | _ => false
  end.

(** Where an address stands: its chain and stage while it is in the
    dictionary. An address that is not there has either not been detected
    yet or has been forwarded; which of the two is told by the move. *)
Definition advances (o o' : option state) : bool :=
  match o, o' with
  | None, Some s' => next_in (stage_sequence (chain_of s')) Detected (stage_of s')
  | Some s, Some s' =>
      chain_eqb (chain_of s) (chain_of s')
      && next_in (stage_sequence (chain_of s)) (stage_of s) (stage_of s')
  | Some s, None => next_in (stage_sequence (chain_of s)) (stage_of s) Forward
  | None, None => false
  end.

Definition keys (d : dict) : list pystr := map fst d.

(** What a Python dictionary built by the handlers is: no key twice, no
    empty key. *)
Definition wf (d : dict) : Prop :=
  NoDup (keys d) /\ Forall (fun k => truthy k = true) (keys d).

(** The first address in a given state: the correlators' loop. *)
Definition at_state (s : state) (d : dict) : option pystr :=
  first_item (fun _ st => state_eqb st s) d.

Section Steps.

Context {solders : Solders}.

(** The correlator steps of the second agent's replies, as they show
    in the log: each step writes its record before it acts. *)
Definition step_of (r : level * logmsg) : option (chain * nat) :=
  match snd r with
  | PipelineA_Step3 _ => Some (SOL, 1)
  | PipelineA_Final_Step _ => Some (SOL, 2)
  | PipelineB_Step2 _ => Some (BNB, 1)
  | PipelineB_Final_Step _ => Some (BNB, 2)
  | _ => None
  end.

Fixpoint steps (l : list (level * logmsg)) : list (chain * nat) :=
  match l with
  | [] => []
  | r :: l' =>
      match step_of r with
      | Some s => s :: steps l'
      | None => steps l'
      end
  end.

(** The steps that acted on one update. *)
Definition steps_on (ev : event) (n : net) (w : world)
  : list (chain * nat) :=
  steps (skipn (length (logs w)) (logs (on_event ev n w))).

Definition steps_of_chain (c : chain) (l : list (chain * nat)) : nat :=
  length (filter (fun s => chain_eqb (fst s) c) l).

(** A chain has an instance waiting for a reply of the second agent. *)
Definition eligible (c : chain) (d : dict) : bool :=
  match c with
  | SOL =>
      match at_state a_waiting_for_th_response d,
            at_state a_waiting_for_tt_response d with
      | None, None => false
      | _, _ => true
      end
  | BNB =>
      match at_state b_waiting_for_response d,
            at_state b_waiting_for_tt_response d with
      | None, None => false
      | _, _ => true
      end
  end.

(** Two readings of the dispatch discipline of section 4.3: every
    chain with a waiting instance gets exactly one step of the update;
    a step that consumed the update is the last to act on it. *)
Definition exactly_one_step_per_chain (ev : event) (n : net) (w : world)
  : Prop :=
  forall c, eligible c (pending_ca_for_analysis w) = true ->
            steps_of_chain c (steps_on ev n w) = 1.

Definition no_later_step (ev : event) (n : net) (w : world) : Prop :=
  length (steps_on ev n w) <= 1.

(** The extractor as section 4.1 words it, to compare [extract_ca]
    with: the matches of the hyperlink urls in their order, then those of the
    raw text, and the first that the chain's validator accepts. *)
Definition decodes (addr : pystr) : bool :=
  match import_Pubkey, Pubkey_from_string addr with
  | Ok _, Ok _ => true
  | _, _ => false
  end.

Definition validator (c : chain) (addr : pystr) : bool :=
  match c with
  | SOL => decodes addr
  | BNB => true
  end.

Definition address_pattern (c : chain) : pattern :=
  match c with
  | SOL => solana_address_pattern
  | BNB => evm_address_pattern
  end.

Definition hyperlink_urls (ev : event) : list pystr :=
  flat_map (fun e => match e with
                     | MessageEntityTextUrl url => [url]
                     | OtherEntity => []
                     end) (entities ev).

Definition Extract (ev : event) (c : chain) : option pystr :=
  match find (validator c)
             (flat_map (findall (address_pattern c)) (hyperlink_urls ev)) with
  | Some addr => Some addr
  | None => find (validator c) (findall (address_pattern c) (raw_text ev))
  end.

Definition is_bnb (c : chain) : bool :=
  match c with SOL => false | BNB => true end.

End Steps.

(** ** Shorthands for the handlers' outcomes *)

(** A coroutine that ends on [await client.send_message(p, text)]. *)
Definition ran (n : net) (p : peer) (text : pystr) : result unit :=
  match n p text with None => Ok tt | Some e => Raise e end.

(** One that goes on to [raise events.StopPropagation]. *)
Definition stopped (n : net) (p : peer) (text : pystr) : result unit :=
  match n p text with None => Raise StopPropagation | Some e => Raise e end.

(** The scanner's condition: in state [a_soul_scanner] and quoted by the
    reply. *)
Definition scanned (text : pystr) (ca : pystr) (st : state) : bool :=
  state_eqb st a_soul_scanner && str_in ca text.

(** The record the forward leaves in the log after its first one. *)
Definition outcome_A (n : net) (ca : pystr) : level * logmsg :=
  match n sol_target_group ca with
  | None => (INFO, Pipeline_SUCCESS ca sol_target_group)
  | Some e => (ERROR, Pipeline_ERROR_A e)
  end.

Definition outcome_B (n : net) (ca : pystr) : level * logmsg :=
  match n bnb_target_group ca with
  | None => (INFO, Pipeline_SUCCESS ca bnb_target_group)
  | Some e => (ERROR, Pipeline_ERROR_B e)
  end.

(** The ways one handler changes the dictionary. *)
Inductive dict_move : dict -> dict -> Prop :=
| move_none : forall d, dict_move d d
| move_begin : forall d k s,
    dict_get d k = None -> truthy k = true ->
    advances None (Some s) = true ->
    dict_move d (dict_set d k s)
| move_advance : forall d k s s',
    dict_get d k = Some s ->
    advances (Some s) (Some s') = true ->
    dict_move d (dict_set d k s')
| move_forward : forall d k s,
    dict_get d k = Some s ->
    advances (Some s) None = true ->
    dict_move d (dict_del d k).

(** ** Concrete messages and worlds *)

(** Two Solana public keys and a BNB token address. The first key is a
    substring of the second. *)
Definition system_program : pystr := lit "11111111111111111111111111111111".
Definition wrapped_sol : pystr :=
  lit "So11111111111111111111111111111111111111112".
Definition bsc_usd : pystr := lit "0x55d398326f99059fF775485246999027B3197955".

Definition sol_post (a : pystr) : event :=
  Event channel_a_username (fire ++ lit " check https://x.io/" ++ a) [].

Definition bnb_post (a : pystr) : event :=
  Event channel_b_username (coin ++ lit " https://x.io/" ++ a) [].

(** The same post after one leading space. *)
Definition bnb_post_indented (a : pystr) : event :=
  Event channel_b_username (lit " " ++ coin ++ lit " https://x.io/" ++ a) [].

Definition scanner_reply (a : pystr) : event :=
  Event soul_scanner_bot_username (lit "Scan of " ++ a ++ lit ": ok") [].

Definition phanes_reply : event :=
  Event phanes_bot_username (lit "Top holders") [].

(** Both Solana keys sent to the scanner, the shorter one first. *)
Definition two_at_scanner : world :=
  run [(sol_post system_program, net_ok); (sol_post wrapped_sol, net_ok)]
      initial_world.

(** Both Solana keys waiting for the reply to [/th]. *)
Definition two_at_step_one : world :=
  run [(scanner_reply system_program, net_ok);
       (scanner_reply wrapped_sol, net_ok)] two_at_scanner.

(** One Solana key waiting for the reply to [/th], one BNB address
    waiting for its first reply. *)
Definition sol_step_one_bnb_step_one : world :=
  run [(sol_post wrapped_sol, net_ok); (bnb_post bsc_usd, net_ok);
       (scanner_reply wrapped_sol, net_ok)] initial_world.

(** The same after one more reply of the second agent: the Solana key
    waits for the reply to [/tt]. *)
Definition sol_step_two_bnb_step_one : world :=
  run [(phanes_reply, net_ok)] sol_step_one_bnb_step_one.

(** ** The stage table *)

(** One row per registered handler: the chat whose messages trigger it,
    the state it looks for ([None]: the address must not be pending yet)
    and the state it leaves the address in ([None]: the address is
    forwarded and deleted). *)
Record StageDefinition : Type := Row {
  trigger : peer;
  handler : event -> M unit;
  from_state : option state;
  to_state : option state
}.

Definition stage_table {solders : Solders} : list StageDefinition :=
  [ Row channel_a_username sol_handler None (Some a_soul_scanner);
    Row soul_scanner_bot_username sol_soul_scanner_handler
        (Some a_soul_scanner) (Some a_waiting_for_th_response);
    Row phanes_bot_username sol_phanes_th_response_handler
        (Some a_waiting_for_th_response) (Some a_waiting_for_tt_response);
    Row phanes_bot_username sol_phanes_tt_response_handler
        (Some a_waiting_for_tt_response) None;
    Row channel_b_username bnb_handler None (Some b_waiting_for_response);
    Row phanes_bot_username bnb_phanes_initial_response_handler
        (Some b_waiting_for_response) (Some b_waiting_for_tt_response);
    Row phanes_bot_username bnb_phanes_tt_response_handler
        (Some b_waiting_for_tt_response) None ].

(** Whether a reply names an address. The scanner's handler takes the
    addresses its reply quotes ([ca in event.raw_text]); the handlers
    of the second agent never read the reply, which names none, and
    take any address. *)
Definition quoted (ev : event) (ca : pystr) : bool :=
  str_in ca (raw_text ev).

Definition unnamed (ev : event) (ca : pystr) : bool := true.

(** The three correlators that advance an instance to a next waiting
    state: the handler, the addresses a reply asks it to advance, and
    the pair of states. *)
Definition advancing_correlators {solders : Solders}
  : list ((event -> M unit) * (event -> pystr -> bool) * state * state) :=
  [ (sol_soul_scanner_handler, quoted,
     a_soul_scanner, a_waiting_for_th_response);
    (sol_phanes_th_response_handler, unnamed,
     a_waiting_for_th_response, a_waiting_for_tt_response);
    (bnb_phanes_initial_response_handler, unnamed,
     b_waiting_for_response, b_waiting_for_tt_response) ].

(** What a row does to the dictionary when it acts on address [k]. *)
Definition apply_row (to : option state) (d : dict) (k : pystr) : dict :=
  match to with
  | Some s' => dict_set d k s'
  | None => dict_del d k
  end.

(** ** Per-chain constants of the source *)

Definition marker (c : chain) : pystr :=
  match c with SOL => fire | BNB => coin end.

Definition source_channel (c : chain) : peer :=
  match c with SOL => channel_a_username | BNB => channel_b_username end.

Definition target_group (c : chain) : peer :=
  match c with SOL => sol_target_group | BNB => bnb_target_group end.

Definition step_two_state (c : chain) : state :=
  match c with
  | SOL => a_waiting_for_tt_response
  | BNB => b_waiting_for_tt_response
  end.

Definition forward_handler {solders : Solders} (c : chain)
  : event -> M unit :=
  match c with
  | SOL => sol_phanes_tt_response_handler
  | BNB => bnb_phanes_tt_response_handler
  end.

Definition Skip_no_marker (c : chain) : logmsg :=
  match c with
  | SOL => PipelineA_Skip_no_marker
  | BNB => PipelineB_Skip_no_marker
  end.

Definition Final_Step (c : chain) (ca : pystr) : logmsg :=
  match c with
  | SOL => PipelineA_Final_Step ca
  | BNB => PipelineB_Final_Step ca
  end.

Definition Pipeline_ERROR (c : chain) (e : exn) : logmsg :=
  match c with
  | SOL => Pipeline_ERROR_A e
  | BNB => Pipeline_ERROR_B e
  end.

(** ** Executions

    The client handles every update in a task of its own, and a task
    gives way at each [await client.send_message]: what a handler does
    after its send may come after other updates have been handled. Only
    the two forward handlers do anything to the world after their send
    (the outcome record and the guarded [del]); the other five have
    stored their state before it. *)

(** [send_message] up to the point where the coroutine is suspended:
    the call is made. *)
Definition send_requested (p : peer) (text : pystr) : M unit :=
  fun _ w => (Ok tt, World (pending_ca_for_analysis w)
                           (sent w ++ [(p, text)]) (logs w)).

(** [send_message] from the point where the coroutine is resumed: the
    call returns or raises. *)
Definition send_completed (p : peer) (text : pystr) : M unit :=
  fun n w => (match n p text with None => Ok tt | Some e => Raise e end, w).

(** A forward handler up to its [await]: the search, the first log
    record and the call; [Some found_ca] when it is suspended there,
    [None] when it has returned at [if not found_ca]. *)
Definition forward_until_await (c : chain) : M (option pystr) :=
  (pending <- get_pending ;;
   match found (at_state (step_two_state c) pending) with
   | None => ret None
   | Some found_ca =>
       logging INFO (Final_Step c found_ca) ;;;
       send_requested (target_group c) found_ca ;;;
       ret (Some found_ca)
   end)%handler.

(** The same handler from its resumption, [found_ca] being its local
    variable: the outcome record and
    [if found_ca in pending_ca_for_analysis: del ...]. *)
Definition forward_after_await (c : chain) (found_ca : pystr) : M unit :=
  (try_except_M
     (send_completed (target_group c) found_ca ;;;
      logging INFO (Pipeline_SUCCESS found_ca (target_group c)))
     (fun e => logging ERROR (Pipeline_ERROR c e)) ;;;
   pending' <- get_pending ;;
   if dict_in found_ca pending' then delitem found_ca else ret tt)%handler.

Section Executions.

Context {solders : Solders}.

(** One step of the program: a handler run by the client on an update
    it lets through, with nothing handled during its send; the client
    logging an exception a handler let escape; a forward handler run up
    to its [await]; a forward handler resumed, in whatever world the
    other tasks have left, after its call to the group was made. The
    handlers of one update need not follow each other and a resumption
    is not counted against its suspension, so these steps give every
    execution of the program, and more. *)
Inductive handler_step : world -> world -> Prop :=
| step_callback : forall chats callback ev n w,
    In (chats, callback) event_builders ->
    peer_eqb (chat ev) chats = true ->
    handler_step w (snd (callback ev n w))
| step_unhandled : forall e w,
    handler_step w (World (pending_ca_for_analysis w) (sent w)
                          (logs w ++ [(ERROR, Unhandled_exception e)]))
| step_forward_suspended : forall c n w found_ca w',
    forward_until_await c n w = (Ok (Some found_ca), w') ->
    handler_step w w'
| step_forward_resumed : forall c found_ca n w,
    In (target_group c, found_ca) (sent w) ->
    handler_step w (snd (forward_after_await c found_ca n w)).

Inductive reachable : world -> Prop :=
| reach_initial : reachable initial_world
| reach_step : forall w w',
    reachable w -> handler_step w w' -> reachable w'.

End Executions.

(** The entries of the dictionary under one address. *)
Definition instances (a : pystr) (d : dict) : dict :=
  filter (fun kv => pystr_eqb a (fst kv)) d.

Definition source_handler {solders : Solders} (c : chain)
  : event -> M unit :=
  match c with SOL => sol_handler | BNB => bnb_handler end.

(** ** Claims of the specification that the code does not meet as worded

    Each is stated here as it is worded, to be refuted on a concrete
    message further down. *)

(** Section 4.1 and section 8: a source message whose leading characters
    are not the marker glyph creates no instance and sends nothing. *)
Definition prefilter_on_leading_glyph {solders : Solders}
           (c : chain) (ev : event) (n : net) (w : world) : Prop :=
  chat ev = source_channel c ->
  startswith (raw_text ev) (marker c) = false ->
  pending_ca_for_analysis (on_event ev n w) = pending_ca_for_analysis w
  /\ sent (on_event ev n w) = sent w.

(** Section 4.3: an instance at [SentToScanner] advances exactly when a
    scanner reply quotes its address. *)
Definition advances_exactly_when_quoted {solders : Solders}
           (a : pystr) (ev : event) (n : net) (w : world) : Prop :=
  dict_get (pending_ca_for_analysis w) a = Some a_soul_scanner ->
  (dict_get (pending_ca_for_analysis (on_event ev n w)) a
     = Some a_waiting_for_th_response
   <-> chat ev = soul_scanner_bot_username
       /\ str_in a (raw_text ev) = true).

(** The dispatch the code implements for a reply of the second agent,
    read off the dictionary: the steps that act, in order. *)
Definition bnb_dispatch (d : dict) : list (chain * nat) :=
  match at_state b_waiting_for_response d with
  | Some _ => [(BNB, 1)]
  | None =>
      match at_state b_waiting_for_tt_response d with
      | Some _ => [(BNB, 2)]
      | None => []
      end
  end.

Definition priority_dispatch (d : dict) : list (chain * nat) :=
  match at_state a_waiting_for_th_response d with
  | Some _ => [(SOL, 1)]
  | None =>
      (match at_state a_waiting_for_tt_response d with
       | Some _ => [(SOL, 2)]
       | None => []
       end) ++ bnb_dispatch d
  end.

(** The commands to the second agent get through. *)
Definition commands_delivered (n : net) : Prop :=
  forall text, n phanes_bot_username text = None.

(** The client logging an exception that escaped a handler. *)
Definition log_unhandled (e : exn) (w : world) : world :=
  World (pending_ca_for_analysis w) (sent w)
        (logs w ++ [(ERROR, Unhandled_exception e)]).

(** The network when the second agent cannot be reached. *)
Definition net_no_commands : net := fun p _ =>
  match p with
  | phanes_bot_username => Some (RPCError 420)
  | _ => None
  end.

(** ** Further vocabulary for the properties of the handlers *)

(** What a match of each pattern looks like. *)
Definition solana_shape (a : pystr) : bool :=
  (32 <=? length a) && (length a <=? 44) && forallb is_base58 a.

Definition evm_shape (a : pystr) : bool :=
  match a with
  | 48%N :: 120%N :: h => (length h =? 40) && forallb is_hex h
  | _ => false
  end.

(** The address is written somewhere in the message: in its text or in
    the url of one of its text links. *)
Definition occurs_in_message (a : pystr) (ev : event) : Prop :=
  str_in a (raw_text ev) = true
  \/ exists url,
       In (MessageEntityTextUrl url) (entities ev) /\ str_in a url = true.

(** What the extractor of a chain accepts. *)
Definition address_shape {solders : Solders} (c : chain) (a : pystr) : bool :=
  match c with
  | SOL => solana_shape a && decodes a
  | BNB => evm_shape a
  end.

(** The state a source handler stores and the agent it writes to. *)
Definition first_state (c : chain) : state :=
  match c with SOL => a_soul_scanner | BNB => b_waiting_for_response end.

Definition first_agent (c : chain) : peer :=
  match c with
  | SOL => soul_scanner_bot_username
  | BNB => phanes_bot_username
  end.

Definition PipelineSTART (c : chain) (ca : pystr) : logmsg :=
  match c with SOL => PipelineA_START ca | BNB => PipelineB_START ca end.

Definition Skip_no_CA (c : chain) : logmsg :=
  match c with SOL => PipelineA_Skip_no_CA | BNB => PipelineB_Skip_no_CA end.

(** The [send_message] call a handler makes when it leaves address [k]
    in state [to] ([None]: when it forwards it out of state [from]). *)
Definition action (from to : option state) (k : pystr) : peer * pystr :=
  match to with
  | Some a_soul_scanner => (soul_scanner_bot_username, k)
  | Some a_waiting_for_th_response => (phanes_bot_username, lit "/th " ++ k)
  | Some a_waiting_for_tt_response => (phanes_bot_username, lit "/tt " ++ k)
  | Some b_waiting_for_response => (phanes_bot_username, k)
  | Some b_waiting_for_tt_response => (phanes_bot_username, lit "/tt " ++ k)
  | None =>
      match from with
      | Some b_waiting_for_tt_response => (bnb_target_group, k)
      | _ => (sol_target_group, k)
      end
  end.

(** The calls that lead an address to a state, oldest first. *)
Definition trail (s : state) (a : pystr) : list (peer * pystr) :=
  match s with
  | a_soul_scanner => [(soul_scanner_bot_username, a)]
  | a_waiting_for_th_response =>
      [(soul_scanner_bot_username, a);
       (phanes_bot_username, lit "/th " ++ a)]
  | a_waiting_for_tt_response =>
      [(soul_scanner_bot_username, a);
       (phanes_bot_username, lit "/th " ++ a);
       (phanes_bot_username, lit "/tt " ++ a)]
  | b_waiting_for_response => [(phanes_bot_username, a)]
  | b_waiting_for_tt_response =>
      [(phanes_bot_username, a); (phanes_bot_username, lit "/tt " ++ a)]
  end.

(** The chats no handler is registered on. *)
Definition unwatched (p : peer) : bool :=
  match p with
  | sol_target_group | bnb_target_group | other_chat _ => true
  | _ => false
  end.

(** ** Start-up: the credentials (module level of both files) and the
    guard at the head of [main] *)

Record credentials : Type := Credentials {
  api_id : option Z;
  api_hash : option pystr;
  phone_number : option pystr
}.

Inductive startup_log : Type :=
| Using_default_credentials
| FATAL_credential_parsing (e : exn)
| Exiting_missing_credentials.

(** Truth value of an [Optional[int]] and of an [Optional[str]]. *)
Definition truthy_int (o : option Z) : bool :=
  match o with Some z => negb (Z.eqb z 0) | None => false end.

Definition truthy_str (o : option pystr) : bool :=
  match o with Some s => truthy s | None => false end.

(** [TelegramClient('session_user', api_id, api_hash)], which both
    files call while the module loads (main.py line 79, app.py line
    62): the constructor of the library raises [ValueError] when the id
    or the hash is [None], zero or empty. The exception is caught
    nowhere, so the module stops loading and [main] is never called. *)
Definition TelegramClient (c : credentials) : result unit :=
  if truthy_int (api_id c) && truthy_str (api_hash c)
  then Ok tt else Raise ValueError.

(** [all([api_id, api_hash, phone_number])]: [main], once it is
    called, goes on to [client.start] when it holds and returns at once
    otherwise. *)
Definition main_proceeds (c : credentials) : bool :=
  truthy_int (api_id c) && truthy_str (api_hash c)
  && truthy_str (phone_number c).

Section Startup.

(** The builtin [int] on strings, which raises [ValueError] on what is
    not a number, and the three fallback constants of [main.py], of
    which only the truth values matter below. *)
Variable int : pystr -> result Z.
Variable DEFAULT_API_ID : Z.
Variables DEFAULT_API_HASH DEFAULT_PHONE_NUMBER : pystr.

(** [if api_id_str: api_id = int(api_id_str)], [api_id] being [None]
    before. *)
Definition parse_api_id (api_id_str : option pystr) : result (option Z) :=
  match api_id_str with
  | Some s =>
      if truthy s then (z <- int s ;; Ok (Some z))%result else Ok None
  | None => Ok None
  end.

(** [main.py], lines 23 to 44: the three [os.environ.get] come first,
    so an exception of [int] leaves the hash and the phone read. *)
Definition load_credentials_main (environ : string -> option pystr)
  : credentials * list (level * startup_log) :=
  let api_id_str := environ "API_ID"%string in
  let api_hash := environ "API_HASH"%string in
  let phone_number := environ "PHONE_NUMBER"%string in
  match parse_api_id api_id_str with
  | Raise e =>
      (Credentials None api_hash phone_number,
       [(ERROR, FATAL_credential_parsing e)])
  | Ok api_id =>
      if negb (truthy_int api_id)
      then (Credentials (Some DEFAULT_API_ID) (Some DEFAULT_API_HASH)
                        (Some DEFAULT_PHONE_NUMBER),
            [(WARNING, Using_default_credentials)])
      else (Credentials api_id api_hash phone_number, [])
  end.

(** [app.py], lines 14 to 28: [int] comes before the other two reads,
    and there is no fallback. *)
Definition load_credentials_app (environ : string -> option pystr)
  : credentials * list (level * startup_log) :=
  let api_id_str := environ "API_ID"%string in
  match parse_api_id api_id_str with
  | Raise e =>
      (Credentials None None None, [(ERROR, FATAL_credential_parsing e)])
  | Ok api_id =>
      (Credentials api_id (environ "API_HASH"%string)
                   (environ "PHONE_NUMBER"%string), [])
  end.

End Startup.

(** [int] in base 10 on a string of ASCII characters, where a run is
    evaluated: white space around the numeral is dropped, a sign may
    come first, and digits may be separated by single underscores.
    Outside ASCII the builtin also reads the decimal digits of other
    scripts, which are rejected here, and recent interpreters refuse a
    numeral of more than 4300 digits, which is read here. *)
Fixpoint decimal (after_digit : bool) (acc : Z) (s : pystr) : result Z :=
  match s with
  | [] => if after_digit then Ok acc else Raise ValueError
  | c :: s' =>
      if in_range 48 57 c
      then decimal true (acc * 10 + Z.of_N (c - 48)) s'
      else if N.eqb c 95 && after_digit
      then decimal false acc s'
      else Raise ValueError
  end.

Definition ascii_int (s : pystr) : result Z :=
  match strip s with
  | 45%N :: body => (z <- decimal false 0 body ;; Ok (- z)%Z)%result
  | 43%N :: body => decimal false 0 body
  | body => decimal false 0 body
  end.

(** Three environments: a hash and a phone but no id; an id that is
    not a number; all three set. *)
Definition environ_without_id : string -> option pystr := fun k =>
  if String.eqb k "API_HASH" then Some (lit "abcdef")
  else if String.eqb k "PHONE_NUMBER" then Some (lit "+100")
  else None.

Definition environ_bad_id : string -> option pystr := fun k =>
  if String.eqb k "API_ID" then Some (lit "12x4")
  else Some (lit "set").

Definition environ_complete : string -> option pystr := fun k =>
  if String.eqb k "API_ID" then Some (lit "1234")
  else Some (lit "set").

(** The interface when the library is not installed. *)
Definition no_solders : Solders :=
  Build_Solders (Raise ImportError) base58_Pubkey_from_string.

(** The 64 hex digits of a transaction hash: 40 and 24. *)
Definition hash_head : pystr := lit "55d398326f99059fF775485246999027B3197955".
Definition hash_tail : pystr := lit "00112233445566778899aabb".

(** ** A forward handler overtaken between its send and its [del]

    Two replies of the second agent arrive while the key waits for the
    reply to [/tt]; each is handled in its own task and both forward
    handlers are suspended at their send. The first one resumes and
    deletes the key; the source channel posts the key again, which opens
    a new instance at [a_soul_scanner]; the second one resumes. *)

Definition at_step_two : world :=
  run [(sol_post wrapped_sol, net_ok); (scanner_reply wrapped_sol, net_ok);
       (phanes_reply, net_ok)] initial_world.

Definition first_forward_suspended : world :=
  snd (forward_until_await SOL net_ok at_step_two).

Definition second_forward_suspended : world :=
  snd (forward_until_await SOL net_ok first_forward_suspended).

Definition first_forward_resumed : world :=
  snd (forward_after_await SOL wrapped_sol net_ok second_forward_suspended).

Definition begun_again : world :=
  on_event (sol_post wrapped_sol) net_ok first_forward_resumed.

Definition second_forward_resumed : world :=
  snd (forward_after_await SOL wrapped_sol net_ok begun_again).

(** Section 3, as it is worded, for one step and one address: the stage
    is kept or moves to the next one of the sequence; leaving the store
    is the move to [Forward]. *)
Definition stage_advances (w w' : world) (a : pystr) : Prop :=
  dict_get (pending_ca_for_analysis w') a
    = dict_get (pending_ca_for_analysis w) a
  \/ advances (dict_get (pending_ca_for_analysis w) a)
              (dict_get (pending_ca_for_analysis w') a) = true.

(** A third Solana key, pending nowhere. *)
Definition token_program : pystr :=
  lit "TokenkegQfeZyiNwAJbNbGKPFXCWuBvf9Ss623VQ5DA".

(** A BNB post that quotes a transaction: the glyph, a word, the 64 hex
    digits of the hash. *)
Definition bnb_post_with_hash : event :=
  Event channel_b_username
        ((coin ++ lit " tx ") ++ lit "0x" ++ hash_head ++ hash_tail) [].

(** * Properties *)

Unset Implicit Arguments.

(** ** The extractor *)

Section ExtractorFacts.

Context {solders : Solders}.

Lemma is_valid_decodes (address : pystr) :
  is_valid_solana_address address = Ok (decodes address).
Proof.
  unfold is_valid_solana_address, decodes, try_except, rbind.
  destruct import_Pubkey; [destruct (Pubkey_from_string address)|];
    reflexivity.
Qed.

Lemma first_valid_find (c : chain) (matches : list pystr) :
  first_valid (is_bnb c) matches = Ok (find (validator c) matches).
Proof.
  induction matches as [|addr rest IH]; [reflexivity|].
  destruct c; cbn [first_valid is_bnb negb find validator rbind].
  - rewrite is_valid_decodes; cbn [rbind].
    destruct (decodes addr); [reflexivity|exact IH].
  - reflexivity.
Qed.

Lemma find_over_app (f : pystr -> bool) (l1 l2 : list pystr) :
  find f (l1 ++ l2) =
  match find f l1 with Some x => Some x | None => find f l2 end.
Proof.
  induction l1 as [|x l1 IH]; [reflexivity|].
  cbn [app find]. destruct (f x); [reflexivity|exact IH].
Qed.

Lemma scan_entities_find (c : chain) (ents : list entity) :
  scan_entities (address_pattern c) (is_bnb c) ents =
  Ok (find (validator c)
           (flat_map (findall (address_pattern c))
              (flat_map (fun e => match e with
                                  | MessageEntityTextUrl url => [url]
                                  | OtherEntity => []
                                  end) ents))).
Proof.
  induction ents as [|e rest IH]; [reflexivity|].
  destruct e as [url|]; cbn [scan_entities flat_map app]; [|exact IH].
  rewrite first_valid_find; cbn [rbind].
  rewrite find_over_app.
  destruct (find (validator c) (findall (address_pattern c) url));
    [reflexivity|exact IH].
Qed.

Lemma extract_ca_eq (ev : event) (c : chain) :
  extract_ca ev (is_bnb c) = Ok (Extract ev c).
Proof.
  unfold extract_ca, Extract, hyperlink_urls.
  replace (if is_bnb c then evm_address_pattern else solana_address_pattern)
    with (address_pattern c) by (destruct c; reflexivity).
  rewrite scan_entities_find; cbn [rbind found].
  destruct (find _ _) as [addr|]; [reflexivity|].
  rewrite first_valid_find; cbn [rbind].
  destruct (find _ _); reflexivity.
Qed.

(** C5. For every message and chain, [extract_ca] returns what the
    extractor of section 4.1 returns: the first match, over the
    hyperlink urls in their order, that passes the chain's validator
    (Solana: the decoder accepts it; BNB: the match alone) and, when no
    url gives one, the first such match of the raw text, else none. *)
Theorem extract_ca_refines_Extract (ev : event) (c : chain) :
  extract_ca ev (is_bnb c) = Ok (Extract ev c).
Proof.
  unfold extract_ca, Extract, hyperlink_urls.
  replace (if is_bnb c then evm_address_pattern else solana_address_pattern)
    with (address_pattern c) by (destruct c; reflexivity).
  (* the urls, in order *)
  rewrite scan_entities_find; cbn [rbind found].
  destruct (find (validator c) _) as [addr|]; [reflexivity|].
  (* then the raw text *)
  rewrite first_valid_find; cbn [rbind].
  destruct (find (validator c) _); reflexivity.
Qed.

(** C10. The Solana validator is total: whatever the import and the
    decoder do, it returns a boolean, [True] only when both returned,
    [False] on any exception of either; and so the extractor never
    raises on a candidate that matches the pattern but does not
    decode. *)
Theorem is_valid_solana_address_total (address : pystr) :
  is_valid_solana_address address =
    Ok (match import_Pubkey, Pubkey_from_string address with
        | Ok _, Ok _ => true
        | Raise _, _ | _, Raise _ => false
        end)
  /\ forall ev is_bnb_channel,
       exists r, extract_ca ev is_bnb_channel = Ok r.
Proof.
  split.
  - rewrite is_valid_decodes; unfold decodes.
    destruct import_Pubkey; [destruct (Pubkey_from_string address)|];
      reflexivity.
  - intros ev b.
    exists (Extract ev (if b then BNB else SOL)).
    rewrite <- extract_ca_eq; destruct b; reflexivity.
Qed.

End ExtractorFacts.

(** ** The dictionary *)

Lemma pystr_eqb_eq (a b : pystr) : pystr_eqb a b = true <-> a = b.
Proof.
  revert b; induction a as [|x a IH]; intros [|y b]; cbn [pystr_eqb];
    try (split; [discriminate|congruence]); [tauto|].
  rewrite andb_true_iff, IH; unfold char_eqb; rewrite N.eqb_eq.
  split; [intros [-> ->]; reflexivity|intros H; inversion H; auto].
Qed.

Lemma pystr_eqb_refl (a : pystr) : pystr_eqb a a = true.
Proof. apply pystr_eqb_eq; reflexivity. Qed.

Lemma pystr_eqb_neq (a b : pystr) : a <> b -> pystr_eqb a b = false.
Proof.
  intros H; destruct (pystr_eqb a b) eqn:E; [|reflexivity].
  apply pystr_eqb_eq in E; contradiction.
Qed.

Lemma pystr_eq_dec (a b : pystr) : {a = b} + {a <> b}.
Proof.
  destruct (pystr_eqb a b) eqn:E; [left; apply pystr_eqb_eq; exact E|].
  right; intros ->; rewrite pystr_eqb_refl in E; discriminate.
Qed.

Ltac eqb_cases k k' :=
  destruct (pystr_eq_dec k k') as [?|?];
  [subst; rewrite ?pystr_eqb_refl in *
  |rewrite ?(@pystr_eqb_neq k k') in * by assumption].

Lemma dict_get_None (d : dict) (k : pystr) :
  dict_get d k = None <-> ~ In k (keys d).
Proof.
  induction d as [|[k' v] d IH]; cbn [dict_get keys map fst In]; [tauto|].
  eqb_cases k k'; [split; [discriminate|intros H; elim H; auto]|].
  rewrite IH; unfold keys; split; [intros H [E|E]; [congruence|tauto]|tauto].
Qed.

Lemma dict_get_Some_In (d : dict) (k : pystr) (v : state) :
  dict_get d k = Some v -> In (k, v) d.
Proof.
  induction d as [|[k' v'] d IH]; cbn [dict_get In]; [discriminate|].
  eqb_cases k k'; [intros [= ->]; auto|auto].
Qed.

Lemma In_keys (d : dict) (k : pystr) (v : state) : In (k, v) d -> In k (keys d).
Proof. intros H; apply (in_map fst) in H; exact H. Qed.

Lemma dict_get_In (d : dict) (k : pystr) (v : state) :
  NoDup (keys d) -> In (k, v) d -> dict_get d k = Some v.
Proof.
  induction d as [|[k' v'] d IH]; cbn [dict_get keys map fst In]; [tauto|].
  intros ND [E|E]; inversion ND; subst.
  - inversion E; subst; rewrite pystr_eqb_refl; reflexivity.
  - eqb_cases k k'; [elim H1; eapply In_keys; eauto|auto].
Qed.

Lemma dict_in_true (d : dict) (k : pystr) :
  dict_in k d = true <-> In k (keys d).
Proof.
  unfold dict_in. pose proof (dict_get_None d k) as H.
  destruct (dict_get d k) as [v|] eqn:E.
  - split; [intros _|reflexivity].
    apply dict_get_Some_In in E; eapply In_keys; eauto.
  - split; [discriminate|intros K; apply H in K; tauto].
Qed.

Lemma dict_get_set_eq (d : dict) (k : pystr) (v : state) :
  dict_get (dict_set d k v) k = Some v.
Proof.
  induction d as [|[k' v'] d IH]; cbn [dict_set dict_get].
  - rewrite pystr_eqb_refl; reflexivity.
  - eqb_cases k k'; cbn [dict_get]; [rewrite pystr_eqb_refl; reflexivity|].
    rewrite pystr_eqb_neq by assumption; exact IH.
Qed.

Lemma dict_get_set_neq (d : dict) (k k0 : pystr) (v : state) :
  k0 <> k -> dict_get (dict_set d k v) k0 = dict_get d k0.
Proof.
  intros N; induction d as [|[k' v'] d IH]; cbn [dict_set dict_get].
  - rewrite pystr_eqb_neq by assumption; reflexivity.
  - eqb_cases k k'; cbn [dict_get].
    + rewrite pystr_eqb_neq by assumption; reflexivity.
    + rewrite IH; reflexivity.
Qed.

Lemma keys_set_in (d : dict) (k : pystr) (v : state) :
  In k (keys d) -> keys (dict_set d k v) = keys d.
Proof.
  induction d as [|[k' v'] d IH]; cbn [dict_set keys map fst In]; [tauto|].
  intros H; eqb_cases k k'; cbn [map fst]; [reflexivity|].
  f_equal; apply IH; destruct H; [congruence|assumption].
Qed.

Lemma keys_set_notin (d : dict) (k : pystr) (v : state) :
  ~ In k (keys d) -> keys (dict_set d k v) = keys d ++ [k].
Proof.
  induction d as [|[k' v'] d IH]; cbn [dict_set keys map fst In app];
    [reflexivity|].
  intros H; eqb_cases k k'; [tauto|].
  cbn [map fst]; f_equal; apply IH; tauto.
Qed.

Lemma keys_del_incl (d : dict) (k k0 : pystr) :
  In k0 (keys (dict_del d k)) -> In k0 (keys d).
Proof.
  induction d as [|[k' v'] d IH]; cbn [dict_del keys map fst In]; [tauto|].
  eqb_cases k k'; [auto|].
  cbn [map fst In]; intros [E|E]; [auto|right; apply IH; exact E].
Qed.

Lemma NoDup_keys_del (d : dict) (k : pystr) :
  NoDup (keys d) -> NoDup (keys (dict_del d k)).
Proof.
  induction d as [|[k' v'] d IH]; cbn [dict_del keys map fst]; [auto|].
  intros ND; inversion ND; subst.
  eqb_cases k k'; [assumption|].
  cbn [map fst]; constructor; [|apply IH; assumption].
  intros K; apply keys_del_incl in K; contradiction.
Qed.

Lemma dict_get_del_eq (d : dict) (k : pystr) :
  NoDup (keys d) -> dict_get (dict_del d k) k = None.
Proof.
  induction d as [|[k' v'] d IH]; cbn [dict_del dict_get keys map fst];
    [reflexivity|].
  intros ND; inversion ND; subst.
  eqb_cases k k'; [apply dict_get_None; assumption|].
  cbn [dict_get]; rewrite pystr_eqb_neq by assumption; auto.
Qed.

Lemma dict_get_del_neq (d : dict) (k k0 : pystr) :
  k0 <> k -> dict_get (dict_del d k) k0 = dict_get d k0.
Proof.
  intros N; induction d as [|[k' v'] d IH]; cbn [dict_del dict_get];
    [reflexivity|].
  eqb_cases k k'.
  - rewrite pystr_eqb_neq by assumption; reflexivity.
  - cbn [dict_get]; rewrite IH; reflexivity.
Qed.

Lemma wf_set (d : dict) (k : pystr) (v : state) :
  wf d -> truthy k = true -> wf (dict_set d k v).
Proof.
  intros [ND T] Hk; unfold wf.
  destruct (in_dec pystr_eq_dec k (keys d)) as [I|I].
  - rewrite keys_set_in by assumption; auto.
  - rewrite keys_set_notin by assumption; split.
    + apply NoDup_app; [assumption|repeat constructor; tauto|].
      intros x H [<-|[]]; contradiction.
    + apply Forall_app; auto.
Qed.

Lemma wf_del (d : dict) (k : pystr) : wf d -> wf (dict_del d k).
Proof.
  intros [ND T]; split; [apply NoDup_keys_del; assumption|].
  rewrite Forall_forall in *; intros x H; apply T.
  eapply keys_del_incl; eauto.
Qed.

Lemma first_item_In (cond : pystr -> state -> bool) (d : dict) (k : pystr) :
  first_item cond d = Some k -> exists st, In (k, st) d /\ cond k st = true.
Proof.
  induction d as [|[k' v'] d IH]; cbn [first_item In]; [discriminate|].
  destruct (cond k' v') eqn:E.
  - intros [= <-]; eauto.
  - intros H; destruct (IH H) as [st [I C]]; eauto.
Qed.

Lemma first_item_None (cond : pystr -> state -> bool) (d : dict) :
  first_item cond d = None ->
  forall k st, In (k, st) d -> cond k st = false.
Proof.
  induction d as [|[k' v'] d IH]; cbn [first_item In]; [tauto|].
  destruct (cond k' v') eqn:E; [discriminate|].
  intros H k st [[= <- <-]|I]; auto.
Qed.

Lemma found_wf (cond : pystr -> state -> bool) (d : dict) :
  wf d -> found (first_item cond d) = first_item cond d.
Proof.
  intros [_ T]; destruct (first_item cond d) as [k|] eqn:E; [|reflexivity].
  apply first_item_In in E; destruct E as [st [I _]].
  apply In_keys in I; rewrite Forall_forall in T.
  cbn [found]; rewrite (T _ I); reflexivity.
Qed.

Lemma found_Some_truthy (o : option pystr) (k : pystr) :
  found o = Some k -> o = Some k /\ truthy k = true.
Proof.
  destruct o as [k'|]; cbn [found]; [|discriminate].
  destruct (truthy k') eqn:E; [intros [= <-]; auto|discriminate].
Qed.

Lemma state_eqb_eq (a b : state) : state_eqb a b = true <-> a = b.
Proof. destruct a, b; cbn; split; congruence. Qed.

Lemma at_state_get (s : state) (d : dict) (k : pystr) :
  NoDup (keys d) -> at_state s d = Some k -> dict_get d k = Some s.
Proof.
  intros ND H; apply first_item_In in H; destruct H as [st [I C]].
  apply state_eqb_eq in C; subst; apply dict_get_In; assumption.
Qed.

(** ** What each handler does, in one equation *)

Section HandlerEquations.

Context {solders : Solders}.

Lemma sol_handler_eq (ev : event) (n : net) (w : world) :
  sol_handler ev n w =
  let d := pending_ca_for_analysis w in
  if negb (startswith (strip (raw_text ev)) fire)
  then (Ok tt, World d (sent w) (logs w ++ [(INFO, PipelineA_Skip_no_marker)]))
  else match found (Extract ev SOL) with
       | None =>
           (Ok tt, World d (sent w) (logs w ++ [(INFO, PipelineA_Skip_no_CA)]))
       | Some ca =>
           if dict_in ca d
           then (Ok tt, World d (sent w)
                          (logs w ++ [(WARNING, Already_in_pipeline ca)]))
           else (ran n soul_scanner_bot_username ca,
                 World (dict_set d ca a_soul_scanner)
                       (sent w ++ [(soul_scanner_bot_username, ca)])
                       (logs w ++ [(INFO, PipelineA_START ca)]))
       end.
Proof.
  unfold sol_handler; cbv zeta.
  destruct (negb _); [reflexivity|].
  unfold bind at 1, lift; rewrite (extract_ca_eq ev SOL).
  destruct (found (Extract ev SOL)) as [ca|]; [|reflexivity].
  unfold bind, get_pending; cbn [pending_ca_for_analysis].
  destruct (dict_in ca _); [reflexivity|].
  unfold setitem, logging, send_message, ran; cbn.
  destruct (n _ _); reflexivity.
Qed.

Lemma bnb_handler_eq (ev : event) (n : net) (w : world) :
  bnb_handler ev n w =
  let d := pending_ca_for_analysis w in
  if negb (startswith (strip (raw_text ev)) coin)
  then (Ok tt, World d (sent w) (logs w ++ [(INFO, PipelineB_Skip_no_marker)]))
  else match found (Extract ev BNB) with
       | None =>
           (Ok tt, World d (sent w) (logs w ++ [(INFO, PipelineB_Skip_no_CA)]))
       | Some ca =>
           if dict_in ca d
           then (Ok tt, World d (sent w)
                          (logs w ++ [(WARNING, Already_in_pipeline ca)]))
           else (ran n phanes_bot_username ca,
                 World (dict_set d ca b_waiting_for_response)
                       (sent w ++ [(phanes_bot_username, ca)])
                       (logs w ++ [(INFO, PipelineB_START ca)]))
       end.
Proof.
  unfold bnb_handler; cbv zeta.
  destruct (negb _); [reflexivity|].
  unfold bind at 1, lift; rewrite (extract_ca_eq ev BNB).
  destruct (found (Extract ev BNB)) as [ca|]; [|reflexivity].
  unfold bind, get_pending; cbn [pending_ca_for_analysis].
  destruct (dict_in ca _); [reflexivity|].
  unfold setitem, logging, send_message, ran; cbn.
  destruct (n _ _); reflexivity.
Qed.

Lemma sol_soul_scanner_handler_eq (ev : event) (n : net) (w : world) :
  sol_soul_scanner_handler ev n w =
  let d := pending_ca_for_analysis w in
  match found (first_item (scanned (raw_text ev)) d) with
  | None => (Ok tt, w)
  | Some ca =>
      (ran n phanes_bot_username (lit "/th " ++ ca),
       World (dict_set d ca a_waiting_for_th_response)
             (sent w ++ [(phanes_bot_username, lit "/th " ++ ca)])
             (logs w ++ [(INFO, PipelineA_Step2 ca)]))
  end.
Proof.
  unfold sol_soul_scanner_handler, bind, get_pending; cbv zeta.
  change (fun ca st => state_eqb st a_soul_scanner && str_in ca (raw_text ev))
    with (scanned (raw_text ev)).
  destruct (found _) as [ca|]; [|reflexivity].
  unfold setitem, logging, send_message, ran; cbn.
  destruct (n _ _); reflexivity.
Qed.

Lemma sol_phanes_th_response_handler_eq (ev : event) (n : net) (w : world) :
  sol_phanes_th_response_handler ev n w =
  let d := pending_ca_for_analysis w in
  match found (at_state a_waiting_for_th_response d) with
  | None => (Ok tt, w)
  | Some ca =>
      (stopped n phanes_bot_username (lit "/tt " ++ ca),
       World (dict_set d ca a_waiting_for_tt_response)
             (sent w ++ [(phanes_bot_username, lit "/tt " ++ ca)])
             (logs w ++ [(INFO, PipelineA_Step3 ca)]))
  end.
Proof.
  unfold sol_phanes_th_response_handler, bind, get_pending, at_state;
    cbv zeta.
  destruct (found _) as [ca|]; [|reflexivity].
  unfold setitem, logging, send_message, stopped, raise; cbn.
  destruct (n _ _); reflexivity.
Qed.

Lemma bnb_phanes_initial_response_handler_eq
      (ev : event) (n : net) (w : world) :
  bnb_phanes_initial_response_handler ev n w =
  let d := pending_ca_for_analysis w in
  match found (at_state b_waiting_for_response d) with
  | None => (Ok tt, w)
  | Some ca =>
      (stopped n phanes_bot_username (lit "/tt " ++ ca),
       World (dict_set d ca b_waiting_for_tt_response)
             (sent w ++ [(phanes_bot_username, lit "/tt " ++ ca)])
             (logs w ++ [(INFO, PipelineB_Step2 ca)]))
  end.
Proof.
  unfold bnb_phanes_initial_response_handler, bind, get_pending, at_state;
    cbv zeta.
  destruct (found _) as [ca|]; [|reflexivity].
  unfold setitem, logging, send_message, stopped, raise; cbn.
  destruct (n _ _); reflexivity.
Qed.

Lemma sol_phanes_tt_response_handler_eq (ev : event) (n : net) (w : world) :
  sol_phanes_tt_response_handler ev n w =
  let d := pending_ca_for_analysis w in
  match found (at_state a_waiting_for_tt_response d) with
  | None => (Ok tt, w)
  | Some ca =>
      (Ok tt,
       World (if dict_in ca d then dict_del d ca else d)
             (sent w ++ [(sol_target_group, ca)])
             ((logs w ++ [(INFO, PipelineA_Final_Step ca)])
                ++ [outcome_A n ca]))
  end.
Proof.
  unfold sol_phanes_tt_response_handler, bind, get_pending, at_state;
    cbv zeta.
  destruct (found _) as [ca|]; [|reflexivity].
  unfold try_except_M, bind, delitem, logging, send_message, outcome_A, ret;
    cbn.
  destruct (n _ _); cbn; destruct (dict_in ca _); reflexivity.
Qed.

Lemma bnb_phanes_tt_response_handler_eq (ev : event) (n : net) (w : world) :
  bnb_phanes_tt_response_handler ev n w =
  let d := pending_ca_for_analysis w in
  match found (at_state b_waiting_for_tt_response d) with
  | None => (Ok tt, w)
  | Some ca =>
      (Ok tt,
       World (if dict_in ca d then dict_del d ca else d)
             (sent w ++ [(bnb_target_group, ca)])
             ((logs w ++ [(INFO, PipelineB_Final_Step ca)])
                ++ [outcome_B n ca]))
  end.
Proof.
  unfold bnb_phanes_tt_response_handler, bind, get_pending, at_state;
    cbv zeta.
  destruct (found _) as [ca|]; [|reflexivity].
  unfold try_except_M, bind, delitem, logging, send_message, outcome_B, ret;
    cbn.
  destruct (n _ _); cbn; destruct (dict_in ca _); reflexivity.
Qed.

End HandlerEquations.

(** ** Every handler moves the dictionary by one step of a pipeline *)

Lemma advances_cases (o o' : option state) :
  advances o o' = true <->
  (o = None /\ o' = Some a_soul_scanner)
  \/ (o = None /\ o' = Some b_waiting_for_response)
  \/ (o = Some a_soul_scanner /\ o' = Some a_waiting_for_th_response)
  \/ (o = Some a_waiting_for_th_response
      /\ o' = Some a_waiting_for_tt_response)
  \/ (o = Some a_waiting_for_tt_response /\ o' = None)
  \/ (o = Some b_waiting_for_response /\ o' = Some b_waiting_for_tt_response)
  \/ (o = Some b_waiting_for_tt_response /\ o' = None).
Proof.
  split.
  - destruct o as [[]|], o' as [[]|]; cbn; intros H; try discriminate H;
      tauto.
  - intros H; decompose [or and] H; subst; reflexivity.
Qed.

Lemma dict_move_wf (d d' : dict) : wf d -> dict_move d d' -> wf d'.
Proof.
  intros W M; destruct M; auto using wf_set, wf_del.
  apply wf_set; [assumption|].
  destruct W as [_ T]; rewrite Forall_forall in T; apply T.
  eapply In_keys, dict_get_Some_In; eauto.
Qed.

Lemma dict_move_get (d d' : dict) (a : pystr) :
  NoDup (keys d) -> dict_move d d' ->
  dict_get d' a = dict_get d a
  \/ advances (dict_get d a) (dict_get d' a) = true.
Proof.
  intros ND M; destruct M as [d|d k s G T A|d k s s' G A|d k s G A]; auto;
    (destruct (pystr_eq_dec a k) as [->|N];
     [right|left; auto using dict_get_set_neq, dict_get_del_neq]).
  - rewrite G, dict_get_set_eq; exact A.
  - rewrite G, dict_get_set_eq; exact A.
  - rewrite G, dict_get_del_eq by assumption; exact A.
Qed.

Section Moves.

Context {solders : Solders}.

Lemma event_builders_table :
  event_builders = map (fun r => (trigger r, handler r)) stage_table.
Proof. reflexivity. Qed.

Lemma stage_table_advances (r : StageDefinition) :
  In r stage_table -> advances (from_state r) (to_state r) = true.
Proof.
  intros I; cbn [stage_table In] in I.
  decompose [or] I; subst; try reflexivity; contradiction.
Qed.

Lemma found_at_state (s : state) (d : dict) (ca : pystr) :
  NoDup (keys d) -> found (at_state s d) = Some ca ->
  dict_get d ca = Some s /\ dict_in ca d = true /\ truthy ca = true.
Proof.
  intros ND F; apply found_Some_truthy in F; destruct F as [F T].
  apply at_state_get in F; [|assumption].
  unfold dict_in; rewrite F; auto.
Qed.

Lemma found_scanned (text : pystr) (d : dict) (ca : pystr) :
  NoDup (keys d) -> found (first_item (scanned text) d) = Some ca ->
  dict_get d ca = Some a_soul_scanner /\ str_in ca text = true.
Proof.
  intros ND F; apply found_Some_truthy in F; destruct F as [F _].
  apply first_item_In in F; destruct F as [st [I C]].
  unfold scanned in C; apply andb_true_iff in C; destruct C as [C1 C2].
  apply state_eqb_eq in C1; subst; auto using dict_get_In.
Qed.

Lemma dict_in_false (d : dict) (k : pystr) :
  dict_in k d = false -> dict_get d k = None.
Proof. unfold dict_in; destruct (dict_get d k); [discriminate|auto]. Qed.

(** A handler either leaves the dictionary alone or acts on one
    address that is in the state of its row. *)
Lemma row_effect (r : StageDefinition) (ev : event) (n : net) (w : world) :
  In r stage_table ->
  NoDup (keys (pending_ca_for_analysis w)) ->
  pending_ca_for_analysis (snd (handler r ev n w))
    = pending_ca_for_analysis w
  \/ exists k,
       dict_get (pending_ca_for_analysis w) k = from_state r
       /\ truthy k = true
       /\ pending_ca_for_analysis (snd (handler r ev n w))
          = apply_row (to_state r) (pending_ca_for_analysis w) k.
Proof.
  intros I ND; cbn [stage_table In] in I.
  decompose [or] I; clear I; subst;
    cbn [handler from_state to_state apply_row]; try contradiction.
  - rewrite sol_handler_eq; cbv zeta.
    destruct (negb _); [auto|].
    destruct (found (Extract ev SOL)) as [ca|] eqn:F; [|auto].
    destruct (dict_in ca _) eqn:D; [auto|].
    apply found_Some_truthy in F; destruct F as [_ T].
    right; exists ca; auto using dict_in_false.
  - rewrite sol_soul_scanner_handler_eq; cbv zeta.
    destruct (found _) as [ca|] eqn:F; [|auto].
    pose proof (found_Some_truthy _ _ F) as [_ T].
    apply found_scanned in F; [|assumption]; destruct F as [G _].
    right; exists ca; auto.
  - rewrite sol_phanes_th_response_handler_eq; cbv zeta.
    destruct (found _) as [ca|] eqn:F; [|auto].
    apply found_at_state in F; [|assumption]; destruct F as [G [_ T]].
    right; exists ca; auto.
  - rewrite sol_phanes_tt_response_handler_eq; cbv zeta.
    destruct (found _) as [ca|] eqn:F; [|auto].
    apply found_at_state in F; [|assumption]; destruct F as [G [D T]].
    right; exists ca; cbn [snd pending_ca_for_analysis]; rewrite D; auto.
  - rewrite bnb_handler_eq; cbv zeta.
    destruct (negb _); [auto|].
    destruct (found (Extract ev BNB)) as [ca|] eqn:F; [|auto].
    destruct (dict_in ca _) eqn:D; [auto|].
    apply found_Some_truthy in F; destruct F as [_ T].
    right; exists ca; auto using dict_in_false.
  - rewrite bnb_phanes_initial_response_handler_eq; cbv zeta.
    destruct (found _) as [ca|] eqn:F; [|auto].
    apply found_at_state in F; [|assumption]; destruct F as [G [_ T]].
    right; exists ca; auto.
  - rewrite bnb_phanes_tt_response_handler_eq; cbv zeta.
    destruct (found _) as [ca|] eqn:F; [|auto].
    apply found_at_state in F; [|assumption]; destruct F as [G [D T]].
    right; exists ca; cbn [snd pending_ca_for_analysis]; rewrite D; auto.
Qed.

Lemma row_move (r : StageDefinition) (ev : event) (n : net) (w : world) :
  In r stage_table ->
  NoDup (keys (pending_ca_for_analysis w)) ->
  dict_move (pending_ca_for_analysis w)
            (pending_ca_for_analysis (snd (handler r ev n w))).
Proof.
  intros I ND. pose proof (stage_table_advances r I) as A.
  destruct (row_effect r ev n w I ND) as [->|[k [G [T ->]]]];
    [constructor|].
  destruct (from_state r) as [s|], (to_state r) as [s'|];
    cbn [apply_row]; try discriminate A.
  - eapply move_advance; eauto.
  - eapply move_forward; eauto.
  - apply move_begin; auto.
Qed.

(** The frame of a handler: an address that is not in the state of its
    row keeps its entry. *)
Lemma row_frame (r : StageDefinition) (ev : event) (n : net) (w : world)
      (y : pystr) :
  In r stage_table ->
  NoDup (keys (pending_ca_for_analysis w)) ->
  dict_get (pending_ca_for_analysis w) y <> from_state r ->
  dict_get (pending_ca_for_analysis (snd (handler r ev n w))) y
    = dict_get (pending_ca_for_analysis w) y.
Proof.
  intros I ND N.
  destruct (row_effect r ev n w I ND) as [->|[k [G [T ->]]]]; [reflexivity|].
  assert (y <> k) by (intros ->; contradiction).
  destruct (to_state r); cbn [apply_row];
    auto using dict_get_set_neq, dict_get_del_neq.
Qed.

Lemma builders_rows chats callback :
  In (chats, callback) event_builders ->
  exists r, In r stage_table /\ trigger r = chats /\ handler r = callback.
Proof.
  rewrite event_builders_table, in_map_iff.
  intros [r [E I]]; inversion E; eauto.
Qed.

Lemma callback_step_move chats callback
      (ev : event) (n : net) (w : world) :
  In (chats, callback) event_builders ->
  NoDup (keys (pending_ca_for_analysis w)) ->
  dict_move (pending_ca_for_analysis w)
            (pending_ca_for_analysis (snd (callback ev n w))).
Proof.
  intros I ND; apply builders_rows in I; destruct I as [r [I [_ <-]]].
  apply row_move; assumption.
Qed.

(** The two halves of a forward handler, in one equation each. *)
Lemma forward_until_await_eq (c : chain) (n : net) (w : world) :
  forward_until_await c n w =
  match found (at_state (step_two_state c) (pending_ca_for_analysis w)) with
  | None => (Ok None, w)
  | Some ca =>
      (Ok (Some ca),
       World (pending_ca_for_analysis w)
             (sent w ++ [(target_group c, ca)])
             (logs w ++ [(INFO, Final_Step c ca)]))
  end.
Proof.
  unfold forward_until_await, bind, get_pending.
  destruct (found _); reflexivity.
Qed.

Lemma forward_after_await_eq (c : chain) (ca : pystr) (n : net) (w : world) :
  forward_after_await c ca n w =
  (Ok tt,
   World (if dict_in ca (pending_ca_for_analysis w)
          then dict_del (pending_ca_for_analysis w) ca
          else pending_ca_for_analysis w)
         (sent w)
         (logs w ++ [match n (target_group c) ca with
                     | None => (INFO, Pipeline_SUCCESS ca (target_group c))
                     | Some e => (ERROR, Pipeline_ERROR c e)
                     end])).
Proof.
  unfold forward_after_await, try_except_M, bind, send_completed, logging,
    get_pending, delitem, ret.
  destruct (n (target_group c) ca); cbn [pending_ca_for_analysis];
    destruct (dict_in ca _); reflexivity.
Qed.

(** Put end to end, the two halves are the handler of the source. *)
Lemma forward_handler_in_two_halves
      (c : chain) (ev : event) (n : net) (w : world) :
  forward_handler c ev n w =
  match forward_until_await c n w with
  | (Ok (Some found_ca), w1) => forward_after_await c found_ca n w1
  | (Ok None, w1) => (Ok tt, w1)
  | (Raise e, w1) => (Raise e, w1)
  end.
Proof.
  rewrite forward_until_await_eq.
  destruct c; cbn [forward_handler step_two_state];
    [rewrite sol_phanes_tt_response_handler_eq
    |rewrite bnb_phanes_tt_response_handler_eq]; cbv zeta;
    (destruct (found _) as [ca|]; [|reflexivity]);
    rewrite forward_after_await_eq; reflexivity.
Qed.

Lemma forward_suspended (c : chain) (n : net) (w w' : world) (ca : pystr) :
  NoDup (keys (pending_ca_for_analysis w)) ->
  forward_until_await c n w = (Ok (Some ca), w') ->
  dict_get (pending_ca_for_analysis w) ca = Some (step_two_state c)
  /\ w' = World (pending_ca_for_analysis w)
                (sent w ++ [(target_group c, ca)])
                (logs w ++ [(INFO, Final_Step c ca)]).
Proof.
  intros ND; rewrite forward_until_await_eq.
  destruct (found _) as [ca'|] eqn:F; [|discriminate].
  intros [= -> <-].
  apply found_at_state in F; [|assumption]; tauto.
Qed.

Lemma handler_step_wf (w w' : world) :
  wf (pending_ca_for_analysis w) -> handler_step w w' ->
  wf (pending_ca_for_analysis w').
Proof.
  intros W H; destruct H as [chats callback ev n w I _| |c n w ca w' S
                            |c ca n w _].
  - eapply dict_move_wf; [exact W|].
    eapply callback_step_move; [exact I|apply W].
  - exact W.
  - apply forward_suspended in S; [|apply W]; destruct S as [_ ->]; exact W.
  - rewrite forward_after_await_eq; cbn [snd pending_ca_for_analysis].
    destruct (dict_in ca _); [apply wf_del|]; exact W.
Qed.

Lemma reachable_wf (w : world) :
  reachable w -> wf (pending_ca_for_analysis w).
Proof.
  induction 1 as [|w w' R IH H].
  - split; constructor.
  - eapply handler_step_wf; eauto.
Qed.

(** What every handler the client runs on an update preserves, the
    whole walk preserves. *)
Lemma dispatch_update_inv (P : world -> Prop) builders
      (ev : event) (n : net) :
  (forall chats callback w,
      In (chats, callback) builders ->
      peer_eqb (chat ev) chats = true ->
      P w -> P (snd (callback ev n w))) ->
  (forall e w,
      P w -> P (World (pending_ca_for_analysis w) (sent w)
                      (logs w ++ [(ERROR, Unhandled_exception e)]))) ->
  forall w, P w -> P (dispatch_update builders ev n w).
Proof.
  intros Hcb Hlog.
  induction builders as [|[chats callback] rest IH]; intros w Pw;
    cbn [dispatch_update]; [assumption|].
  assert (IH' : forall w, P w -> P (dispatch_update rest ev n w)).
  { apply IH; intros; eapply Hcb; eauto; right; assumption. }
  destruct (peer_eqb (chat ev) chats) eqn:E; [|auto].
  pose proof (Hcb chats callback w (or_introl eq_refl) E Pw) as P'.
  destruct (callback ev n w) as [[u|e] w']; cbn [snd] in P'; [auto|].
  destruct e; auto.
Qed.

(** The client's walk over its handlers is a sequence of handler
    steps, so every world a run goes through is reachable. *)
Lemma on_event_reachable (ev : event) (n : net) (w : world) :
  reachable w -> reachable (on_event ev n w).
Proof.
  apply dispatch_update_inv.
  - intros chats callback w0 I E R.
    eapply reach_step; [exact R|econstructor; eauto].
  - intros e w0 R; eapply reach_step; [exact R|constructor].
Qed.

(** More precisely, one update takes the world through handler steps
    only. *)
Lemma on_event_steps (ev : event) (n : net) (w : world) :
  clos_refl_trans world handler_step w (on_event ev n w).
Proof.
  apply (dispatch_update_inv
           (fun w' => clos_refl_trans world handler_step w w')).
  - intros chats callback w0 I E H.
    eapply rt_trans; [exact H|apply rt_step; econstructor; eauto].
  - intros e w0 H.
    eapply rt_trans; [exact H|apply rt_step; constructor].
  - apply rt_refl.
Qed.

Lemma run_reachable updates (w : world) :
  reachable w -> reachable (run updates w).
Proof.
  revert w; induction updates as [|[ev n] rest IH]; intros w R;
    cbn [run]; [assumption|].
  apply IH, on_event_reachable, R.
Qed.

(** C2, amended. In every reachable world of the program, forward
    handlers overtaken at their send included, whatever step comes
    next, an address that is in the dictionary after the step has the
    stage it had or the one that follows it in the sequence of its
    chain, and it has entered at the stage after [Detected]: no stored
    stage goes back and none jumps over a stage. And a handler that
    runs with nothing handled during its send takes an address out of
    the dictionary only from [AwaitingStepTwoReply], for [Forward]. *)
Theorem stage_only_advances (w w' : world) (a : pystr) :
  reachable w -> handler_step w w' ->
  (forall s',
      dict_get (pending_ca_for_analysis w') a = Some s' ->
      dict_get (pending_ca_for_analysis w') a
        = dict_get (pending_ca_for_analysis w) a
      \/ advances (dict_get (pending_ca_for_analysis w) a) (Some s') = true)
  /\ (forall chats callback ev n,
         In (chats, callback) event_builders ->
         w' = snd (callback ev n w) ->
         stage_advances w w' a).
Proof.
  intros R H; apply reachable_wf in R; destruct R as [ND _]; split.
  - intros s' G.
    destruct H as [chats callback ev n w I _| |c n w ca w' S|c ca n w _].
    + destruct (dict_move_get _ _ a ND
                  (callback_step_move chats callback ev n w I ND)) as [E|A];
        [left; exact E|right; rewrite <- G; exact A].
    + left; reflexivity.
    + apply forward_suspended in S; [|exact ND]; destruct S as [_ ->].
      left; reflexivity.
    + left; revert G; rewrite forward_after_await_eq;
        cbn [snd pending_ca_for_analysis].
      destruct (dict_in ca _); [|reflexivity].
      destruct (pystr_eq_dec a ca) as [->|N];
        [rewrite dict_get_del_eq by exact ND; discriminate|].
      intros _; apply dict_get_del_neq; exact N.
  - intros chats callback ev n I ->.
    apply dict_move_get; [exact ND|].
    apply callback_step_move with (chats := chats); assumption.
Qed.

End Moves.

(** ** The source channels *)

Section SourceChannels.

Context {solders : Solders}.

(** On a source channel only the handler of that channel runs. *)
Lemma on_event_source (c : chain) (ev : event) (n : net) (w : world) :
  chat ev = source_channel c ->
  on_event ev n w =
  match source_handler c ev n w with
  | (Ok _, w') => w'
  | (Raise StopPropagation, w') => w'
  | (Raise e, w') => log_unhandled e w'
  end.
Proof.
  intros E; unfold on_event, event_builders; cbn [dispatch_update].
  rewrite E; destruct c; cbn [source_channel peer_eqb source_handler].
  - destruct (sol_handler ev n w) as [[u|e] w']; [|destruct e]; reflexivity.
  - destruct (bnb_handler ev n w) as [[u|e] w']; [|destruct e]; reflexivity.
Qed.

Lemma instances_nil (a : pystr) (d : dict) :
  ~ In a (keys d) -> instances a d = [].
Proof.
  induction d as [|[k v] d IH]; cbn [instances filter keys map fst In];
    [reflexivity|].
  intros N; rewrite pystr_eqb_neq by (intros ->; tauto).
  apply IH; tauto.
Qed.

Lemma instances_one (a : pystr) (st : state) (d : dict) :
  NoDup (keys d) -> dict_get d a = Some st -> instances a d = [(a, st)].
Proof.
  induction d as [|[k v] d IH];
    cbn [instances filter keys map fst dict_get]; [discriminate|].
  intros ND G; inversion ND; subst.
  eqb_cases a k.
  - inversion G; subst.
    fold (instances k d); rewrite instances_nil by assumption; reflexivity.
  - apply IH; assumption.
Qed.

Lemma instances_at_most_one (a : pystr) (d : dict) :
  NoDup (keys d) -> length (instances a d) <= 1.
Proof.
  intros ND; destruct (dict_get d a) as [st|] eqn:G.
  - rewrite (instances_one a st d ND G); auto.
  - rewrite instances_nil by (apply dict_get_None; exact G); auto.
Qed.

(** C3. In every reachable world no address has two instances. When a
    post of either source channel passes the prefilter and the address
    extracted from it is already pending, in whatever state and so
    whichever chain opened it, the update only logs the warning: the
    dictionary and the outbox are unchanged and the address still has
    exactly its one original instance. *)
Theorem one_instance_per_address
        (c : chain) (ev : event) (n : net) (w : world)
        (a : pystr) (st : state) :
  reachable w ->
  chat ev = source_channel c ->
  startswith (strip (raw_text ev)) (marker c) = true ->
  extract_ca ev (is_bnb c) = Ok (Some a) ->
  dict_get (pending_ca_for_analysis w) a = Some st ->
  (forall b, length (instances b (pending_ca_for_analysis w)) <= 1)
  /\ on_event ev n w
     = World (pending_ca_for_analysis w) (sent w)
             (logs w ++ [(WARNING, Already_in_pipeline a)])
  /\ instances a (pending_ca_for_analysis (on_event ev n w)) = [(a, st)].
Proof.
  intros R E P X G.
  destruct (reachable_wf w R) as [ND T].
  assert (Ta : truthy a = true).
  { rewrite Forall_forall in T; apply T.
    eapply In_keys, dict_get_Some_In; eauto. }
  rewrite extract_ca_eq in X; inversion X as [X'].
  assert (H : on_event ev n w
              = World (pending_ca_for_analysis w) (sent w)
                      (logs w ++ [(WARNING, Already_in_pipeline a)])).
  { rewrite (on_event_source c) by assumption.
    destruct c; cbn [source_handler marker] in *;
      [rewrite sol_handler_eq|rewrite bnb_handler_eq]; cbv zeta;
      rewrite P, X'; cbn [negb found]; rewrite Ta;
      unfold dict_in; rewrite G; reflexivity. }
  split; [intros b; apply instances_at_most_one; assumption|].
  split; [exact H|].
  rewrite H; cbn [pending_ca_for_analysis].
  apply instances_one; assumption.
Qed.

(** C6, amended. A message on a source channel whose text, once
    [strip()] has removed the white space around it, does not start
    with the marker glyph of that chain leaves one trace only, the
    skip record of the prefilter: no instance is created, nothing is
    sent, and none of the records that follow an extraction is
    written. *)
Theorem marker_prefilter (c : chain) (ev : event) (n : net) (w : world) :
  chat ev = source_channel c ->
  startswith (strip (raw_text ev)) (marker c) = false ->
  on_event ev n w
  = World (pending_ca_for_analysis w) (sent w)
          (logs w ++ [(INFO, Skip_no_marker c)]).
Proof.
  intros E P; rewrite (on_event_source c) by assumption.
  destruct c; cbn [source_handler marker Skip_no_marker] in *;
    [rewrite sol_handler_eq|rewrite bnb_handler_eq]; cbv zeta;
    rewrite P; reflexivity.
Qed.

End SourceChannels.

Lemma one_instance_per_address_witness :
  reachable two_at_scanner
  /\ on_event (sol_post wrapped_sol) net_ok two_at_scanner
     = World (pending_ca_for_analysis two_at_scanner) (sent two_at_scanner)
             (logs two_at_scanner
                ++ [(WARNING, Already_in_pipeline wrapped_sol)])
  /\ instances wrapped_sol
       (pending_ca_for_analysis
          (on_event (sol_post wrapped_sol) net_ok two_at_scanner))
     = [(wrapped_sol, a_soul_scanner)].
Proof.
  assert (R : reachable two_at_scanner)
    by (apply run_reachable, reach_initial).
  split; [exact R|].
  apply (one_instance_per_address SOL (sol_post wrapped_sol) net_ok
           two_at_scanner wrapped_sol a_soul_scanner R);
    vm_compute; reflexivity.
Defined.

Lemma marker_prefilter_witness :
  on_event (Event channel_a_username (lit "check " ++ wrapped_sol) [])
           net_ok initial_world
  = World [] [] [(INFO, PipelineA_Skip_no_marker)].
Proof.
  apply (marker_prefilter SOL
           (Event channel_a_username (lit "check " ++ wrapped_sol) [])
           net_ok initial_world); vm_compute; reflexivity.
Defined.

(** C6 as worded fails: the leading character of this post is a space,
    not the coin, and yet the address is extracted, an instance is
    created and the address is sent to the second agent. *)
Lemma marker_prefilter_counterexample :
  ~ prefilter_on_leading_glyph BNB (bnb_post_indented bsc_usd)
      net_ok initial_world.
Proof.
  intros H. destruct H as [H _]; [reflexivity|reflexivity|].
  vm_compute in H; discriminate H.
Qed.

(** ** The correlators *)

Section Correlators.

Context {solders : Solders}.

Lemma option_state_dec (o o' : option state) : {o = o'} + {o <> o'}.
Proof. repeat decide equality. Qed.

Lemma forward_handler_eq (c : chain) (ev : event) (n : net) (w : world) :
  forward_handler c ev n w =
  match found (at_state (step_two_state c) (pending_ca_for_analysis w)) with
  | None => (Ok tt, w)
  | Some ca =>
      (Ok tt,
       World (if dict_in ca (pending_ca_for_analysis w)
              then dict_del (pending_ca_for_analysis w) ca
              else pending_ca_for_analysis w)
             (sent w ++ [(target_group c, ca)])
             ((logs w ++ [(INFO, Final_Step c ca)])
                ++ [match n (target_group c) ca with
                    | None => (INFO, Pipeline_SUCCESS ca (target_group c))
                    | Some e => (ERROR, Pipeline_ERROR c e)
                    end]))
  end.
Proof.
  destruct c; cbn [forward_handler step_two_state target_group Final_Step
                   Pipeline_ERROR].
  - rewrite sol_phanes_tt_response_handler_eq; reflexivity.
  - rewrite bnb_phanes_tt_response_handler_eq; reflexivity.
Qed.

(** C4. When the forward handler of a chain finds an address waiting
    for the reply to [/tt], it sends the address to the destination
    group and, whether that call returns or raises, the handler itself
    returns normally, the outcome is only a log record ([SUCCESS] or
    [ERROR]), and the address is deleted from the dictionary while
    every other entry is kept. *)
Theorem forward_clears_instance
        (c : chain) (ev : event) (n : net) (w : world) (ca : pystr) :
  reachable w ->
  at_state (step_two_state c) (pending_ca_for_analysis w) = Some ca ->
  forward_handler c ev n w
  = (Ok tt,
     World (dict_del (pending_ca_for_analysis w) ca)
           (sent w ++ [(target_group c, ca)])
           ((logs w ++ [(INFO, Final_Step c ca)])
              ++ [match n (target_group c) ca with
                  | None => (INFO, Pipeline_SUCCESS ca (target_group c))
                  | Some e => (ERROR, Pipeline_ERROR c e)
                  end]))
  /\ dict_get (dict_del (pending_ca_for_analysis w) ca) ca = None
  /\ forall k, k <> ca ->
       dict_get (dict_del (pending_ca_for_analysis w) ca) k
       = dict_get (pending_ca_for_analysis w) k.
Proof.
  intros R A. pose proof (reachable_wf w R) as W.
  assert (F : found (at_state (step_two_state c)
                              (pending_ca_for_analysis w)) = Some ca)
    by (unfold at_state; rewrite found_wf by assumption; exact A).
  destruct W as [ND _].
  destruct (found_at_state _ _ _ ND F) as [G [D T]].
  split; [rewrite forward_handler_eq, F, D; reflexivity|].
  split; [apply dict_get_del_eq; assumption|].
  intros k N; apply dict_get_del_neq; assumption.
Qed.

Lemma advancing_effect h asked from to (ev : event) (n : net) (w : world) :
  In (h, asked, from, to) advancing_correlators ->
  NoDup (keys (pending_ca_for_analysis w)) ->
  h ev n w = (Ok tt, w)
  \/ exists k,
       dict_get (pending_ca_for_analysis w) k = Some from
       /\ asked ev k = true
       /\ pending_ca_for_analysis (snd (h ev n w))
          = dict_set (pending_ca_for_analysis w) k to.
Proof.
  intros I ND; cbn [advancing_correlators In] in I.
  decompose [or] I; clear I; try contradiction;
    match goal with H : _ = _ |- _ => inversion H; subst; clear H end.
  - rewrite sol_soul_scanner_handler_eq; cbv zeta.
    destruct (found _) as [ca|] eqn:F; [right|left; reflexivity].
    apply found_scanned in F; [|assumption].
    destruct F as [G Q]; exists ca; auto.
  - rewrite sol_phanes_th_response_handler_eq; cbv zeta.
    destruct (found _) as [ca|] eqn:F; [right|left; reflexivity].
    apply found_at_state in F; [|assumption].
    destruct F as [G _]; exists ca; auto.
  - rewrite bnb_phanes_initial_response_handler_eq; cbv zeta.
    destruct (found _) as [ca|] eqn:F; [right|left; reflexivity].
    apply found_at_state in F; [|assumption].
    destruct F as [G _]; exists ca; auto.
Qed.

(** C8. Each of the three advancing correlators changes the stage of
    an address only if that address is pending in the stage the
    correlator advances from and is the one the reply is about (for
    the scanner correlator: its text occurs in the reply), and then to
    the stage it advances to. An address that is absent from the
    dictionary, in another stage, or not the one the reply is about is
    left as it is. And when no address the reply is about is pending
    in that stage (it is absent, or in another stage) the correlator
    returns at once, silently, and leaves the whole world, every stage
    included, unchanged. *)
Theorem advance_only_from_stage
        h asked (from to : state) (ev : event) (n : net) (w : world) :
  reachable w ->
  In (h, asked, from, to) advancing_correlators ->
  (forall a,
      dict_get (pending_ca_for_analysis (snd (h ev n w))) a
      <> dict_get (pending_ca_for_analysis w) a ->
      dict_get (pending_ca_for_analysis w) a = Some from
      /\ asked ev a = true
      /\ dict_get (pending_ca_for_analysis (snd (h ev n w))) a = Some to)
  /\ (forall a,
         dict_get (pending_ca_for_analysis w) a <> Some from
         \/ asked ev a = false ->
         dict_get (pending_ca_for_analysis (snd (h ev n w))) a
         = dict_get (pending_ca_for_analysis w) a)
  /\ ((forall k, asked ev k = true ->
                 dict_get (pending_ca_for_analysis w) k <> Some from) ->
      h ev n w = (Ok tt, w)).
Proof.
  intros R I. destruct (reachable_wf w R) as [ND _].
  destruct (advancing_effect h asked from to ev n w I ND)
    as [E|[k [G [Q E]]]].
  - rewrite E; cbn [snd].
    split; [intros a C; elim C; reflexivity|].
    split; [reflexivity|reflexivity].
  - split; [|split].
    + intros a C; rewrite E in C |- *.
      destruct (pystr_eq_dec a k) as [->|N].
      * split; [exact G|]. split; [exact Q|]. apply dict_get_set_eq.
      * elim C; apply dict_get_set_neq; exact N.
    + intros a O; rewrite E.
      destruct (pystr_eq_dec a k) as [->|N];
        [|apply dict_get_set_neq; exact N].
      destruct O as [O|O]; [elim (O G)|rewrite Q in O; discriminate O].
    + intros None_asked; elim (None_asked k Q G).
Qed.

End Correlators.

Lemma stage_only_advances_witness :
  reachable two_at_scanner
  /\ handler_step two_at_scanner
       (snd (sol_soul_scanner_handler (scanner_reply system_program)
               net_ok two_at_scanner))
  /\ dict_get (pending_ca_for_analysis
                 (snd (sol_soul_scanner_handler
                         (scanner_reply system_program)
                         net_ok two_at_scanner))) system_program
     = Some a_waiting_for_th_response
  /\ (dict_get (pending_ca_for_analysis
                  (snd (sol_soul_scanner_handler
                          (scanner_reply system_program)
                          net_ok two_at_scanner))) system_program
      = dict_get (pending_ca_for_analysis two_at_scanner) system_program
      \/ advances
           (dict_get (pending_ca_for_analysis two_at_scanner) system_program)
           (Some a_waiting_for_th_response)
         = true).
Proof.
  assert (R : reachable two_at_scanner)
    by (apply run_reachable, reach_initial).
  assert (H : handler_step two_at_scanner
                (snd (sol_soul_scanner_handler (scanner_reply system_program)
                        net_ok two_at_scanner))).
  { apply step_callback with (chats := soul_scanner_bot_username);
      [right; left; reflexivity|reflexivity]. }
  assert (G : dict_get (pending_ca_for_analysis
                          (snd (sol_soul_scanner_handler
                                  (scanner_reply system_program)
                                  net_ok two_at_scanner))) system_program
              = Some a_waiting_for_th_response)
    by (vm_compute; reflexivity).
  split; [exact R|]. split; [exact H|]. split; [exact G|].
  exact (proj1 (stage_only_advances _ _ system_program R H) _ G).
Defined.

(** C2 as worded fails. The address has reached the last stored stage
    and two replies of the second agent start two forward handlers
    before either send completes. The first one completes and deletes
    the address; the first channel posts the address again, which
    begins a new instance at the scanner stage; then the second
    forward handler completes, finds the address in the dictionary and
    deletes it: the new instance leaves the dictionary from the
    scanner stage, two stages before [Forward]. *)
Lemma stale_forward_counterexample :
  reachable begun_again
  /\ handler_step begun_again second_forward_resumed
  /\ dict_get (pending_ca_for_analysis begun_again) wrapped_sol
     = Some a_soul_scanner
  /\ dict_get (pending_ca_for_analysis second_forward_resumed) wrapped_sol
     = None
  /\ ~ stage_advances begun_again second_forward_resumed wrapped_sol.
Proof.
  assert (R0 : reachable at_step_two)
    by (apply run_reachable, reach_initial).
  assert (R1 : reachable first_forward_suspended).
  { apply reach_step with (w := at_step_two); [exact R0|].
    apply step_forward_suspended
      with (c := SOL) (n := net_ok) (found_ca := wrapped_sol).
    vm_compute; reflexivity. }
  assert (R2 : reachable second_forward_suspended).
  { apply reach_step with (w := first_forward_suspended); [exact R1|].
    apply step_forward_suspended
      with (c := SOL) (n := net_ok) (found_ca := wrapped_sol).
    vm_compute; reflexivity. }
  assert (R3 : reachable first_forward_resumed).
  { apply reach_step with (w := second_forward_suspended); [exact R2|].
    apply step_forward_resumed. vm_compute; auto. }
  assert (R4 : reachable begun_again)
    by (apply on_event_reachable; exact R3).
  split; [exact R4|].
  split; [apply step_forward_resumed; vm_compute; auto|].
  split; [vm_compute; reflexivity|].
  split; [vm_compute; reflexivity|].
  intros [E|A]; vm_compute in E || vm_compute in A; discriminate.
Qed.

Lemma forward_clears_instance_witness :
  reachable sol_step_two_bnb_step_one
  /\ at_state a_waiting_for_tt_response
       (pending_ca_for_analysis sol_step_two_bnb_step_one)
     = Some wrapped_sol
  /\ fst (sol_phanes_tt_response_handler phanes_reply net_no_forward
            sol_step_two_bnb_step_one) = Ok tt
  /\ dict_get (dict_del (pending_ca_for_analysis sol_step_two_bnb_step_one)
                 wrapped_sol) wrapped_sol = None.
Proof.
  assert (R : reachable sol_step_two_bnb_step_one)
    by (apply run_reachable, run_reachable, reach_initial).
  assert (A : at_state (step_two_state SOL)
                (pending_ca_for_analysis sol_step_two_bnb_step_one)
              = Some wrapped_sol) by (vm_compute; reflexivity).
  destruct (forward_clears_instance SOL phanes_reply net_no_forward
              sol_step_two_bnb_step_one wrapped_sol R A) as [E [G _]].
  split; [exact R|]. split; [exact A|].
  split; [|exact G].
  change (sol_phanes_tt_response_handler phanes_reply net_no_forward
            sol_step_two_bnb_step_one)
    with (forward_handler SOL phanes_reply net_no_forward
            sol_step_two_bnb_step_one).
  rewrite E; reflexivity.
Defined.

Lemma advance_only_from_stage_witness :
  reachable two_at_scanner
  /\ (forall k, quoted (scanner_reply token_program) k = true ->
                dict_get (pending_ca_for_analysis two_at_scanner) k
                <> Some a_soul_scanner)
  /\ sol_soul_scanner_handler (scanner_reply token_program) net_ok
       two_at_scanner
     = (Ok tt, two_at_scanner).
Proof.
  assert (R : reachable two_at_scanner)
    by (apply run_reachable, reach_initial).
  assert (N : forall k, quoted (scanner_reply token_program) k = true ->
                        dict_get (pending_ca_for_analysis two_at_scanner) k
                        <> Some a_soul_scanner).
  { intros k Q G; apply dict_get_Some_In in G.
    assert (K : k = system_program \/ k = wrapped_sol).
    { change (pending_ca_for_analysis two_at_scanner)
        with [(system_program, a_soul_scanner);
              (wrapped_sol, a_soul_scanner)] in G.
      destruct G as [G|[G|[]]]; inversion G; auto. }
    destruct K as [->| ->]; vm_compute in Q; discriminate Q. }
  split; [exact R|]. split; [exact N|].
  refine (proj2 (proj2 (advance_only_from_stage
                          sol_soul_scanner_handler quoted
                          a_soul_scanner a_waiting_for_th_response
                          (scanner_reply token_program) net_ok
                          two_at_scanner R _)) N).
  left; reflexivity.
Defined.

(** ** Replies of the two agents *)

Section Replies.

Context {solders : Solders}.

Lemma peer_eqb_eq (a b : peer) : peer_eqb a b = true <-> a = b.
Proof.
  destruct a, b; cbn; try (split; [discriminate|congruence]);
    try tauto.
  rewrite N.eqb_eq; split; congruence.
Qed.

Lemma dispatch_update_cons chats callback rest
      (ev : event) (n : net) (w : world) :
  chat ev = chats ->
  dispatch_update ((chats, callback) :: rest) ev n w =
  match callback ev n w with
  | (Ok _, w') => dispatch_update rest ev n w'
  | (Raise StopPropagation, w') => w'
  | (Raise e, w') => dispatch_update rest ev n (log_unhandled e w')
  end.
Proof.
  intros <-; cbn [dispatch_update].
  replace (peer_eqb (chat ev) (chat ev)) with true
    by (symmetry; apply peer_eqb_eq; reflexivity).
  destruct (callback ev n w) as [[u|e] w']; [|destruct e]; reflexivity.
Qed.

Lemma dispatch_update_skip chats callback rest
      (ev : event) (n : net) (w : world) :
  peer_eqb (chat ev) chats = false ->
  dispatch_update ((chats, callback) :: rest) ev n w
  = dispatch_update rest ev n w.
Proof. intros E; cbn [dispatch_update]; rewrite E; reflexivity. Qed.

(** The walk in terms of rows. *)
Lemma dispatch_rows_inv (P : world -> Prop) (rows : list StageDefinition)
      (ev : event) (n : net) :
  (forall r w,
      In r rows -> peer_eqb (chat ev) (trigger r) = true ->
      P w -> P (snd (handler r ev n w))) ->
  (forall e w, P w -> P (log_unhandled e w)) ->
  forall w,
    P w ->
    P (dispatch_update (map (fun r => (trigger r, handler r)) rows) ev n w).
Proof.
  intros Hrow Hlog; apply dispatch_update_inv; [|exact Hlog].
  intros chats callback w I E Pw.
  apply in_map_iff in I; destruct I as [r [Er Ir]].
  inversion Er; subst; auto.
Qed.

Lemma row_wf (r : StageDefinition) (ev : event) (n : net) (w : world) :
  In r stage_table ->
  wf (pending_ca_for_analysis w) ->
  wf (pending_ca_for_analysis (snd (handler r ev n w))).
Proof.
  intros I W; eapply dict_move_wf; [exact W|].
  apply row_move; [assumption|apply W].
Qed.

(** *** The scanner agent *)

Lemma on_event_scanner (ev : event) (n : net) (w : world) :
  chat ev = soul_scanner_bot_username ->
  pending_ca_for_analysis (on_event ev n w)
  = pending_ca_for_analysis (snd (sol_soul_scanner_handler ev n w))
  /\ sent (on_event ev n w) = sent (snd (sol_soul_scanner_handler ev n w)).
Proof.
  intros E; unfold on_event, event_builders; cbn [dispatch_update].
  rewrite E; cbn [peer_eqb].
  destruct (sol_soul_scanner_handler ev n w) as [[u|e] w'];
    [|destruct e]; cbn; auto.
Qed.

(** Outside the scanner's chat nothing moves an address out of
    [a_soul_scanner]. *)
Lemma on_event_keeps_scanner (a : pystr) (ev : event) (n : net) (w : world) :
  chat ev <> soul_scanner_bot_username ->
  wf (pending_ca_for_analysis w) ->
  dict_get (pending_ca_for_analysis w) a = Some a_soul_scanner ->
  dict_get (pending_ca_for_analysis (on_event ev n w)) a
  = Some a_soul_scanner.
Proof.
  intros N W G; unfold on_event; rewrite event_builders_table.
  refine (proj2 (dispatch_rows_inv
                   (fun w' => wf (pending_ca_for_analysis w')
                              /\ dict_get (pending_ca_for_analysis w') a
                                 = Some a_soul_scanner)
                   stage_table ev n _ _ w (conj W G))).
  - intros r w0 I E [W0 G0]; split; [apply row_wf; assumption|].
    rewrite row_frame; [exact G0|exact I|apply W0|].
    rewrite G0; cbn [stage_table In] in I.
    decompose [or] I; subst; cbn [from_state trigger] in *;
      try discriminate; try contradiction.
    apply peer_eqb_eq in E; contradiction.
  - intros e w0 H; exact H.
Qed.

(** C7, amended. An instance at [SentToScanner] advances to
    [AwaitingStepOneReply] on an update exactly when the update is a
    reply of the scanner agent and the instance is the first one, in
    the order of the dictionary, that is at [SentToScanner] and whose
    address the reply's text contains; on that transition the command
    [/th <address>] is sent to the second agent. *)
Theorem scanner_advances_first_quoted
        (a : pystr) (ev : event) (n : net) (w : world) :
  reachable w ->
  dict_get (pending_ca_for_analysis w) a = Some a_soul_scanner ->
  (dict_get (pending_ca_for_analysis (on_event ev n w)) a
     = Some a_waiting_for_th_response
   <-> chat ev = soul_scanner_bot_username
       /\ first_item (scanned (raw_text ev)) (pending_ca_for_analysis w)
          = Some a)
  /\ (dict_get (pending_ca_for_analysis (on_event ev n w)) a
        = Some a_waiting_for_th_response ->
      sent (on_event ev n w)
      = sent w ++ [(phanes_bot_username, lit "/th " ++ a)]).
Proof.
  intros R G. pose proof (reachable_wf w R) as W.
  destruct (peer_eqb (chat ev) soul_scanner_bot_username) eqn:E.
  - apply peer_eqb_eq in E.
    destruct (on_event_scanner ev n w E) as [-> ->].
    rewrite sol_soul_scanner_handler_eq; cbv zeta.
    rewrite found_wf by assumption.
    destruct (first_item _ _) as [k|] eqn:F;
      cbn [snd pending_ca_for_analysis sent].
    + destruct (pystr_eq_dec a k) as [->|N].
      * rewrite dict_get_set_eq; tauto.
      * rewrite dict_get_set_neq, G by assumption.
        split; [split; [discriminate|]|discriminate].
        intros [_ [= K]]; congruence.
    + rewrite G; split; [split; [discriminate|]|discriminate].
      intros [_ K]; discriminate K.
  - assert (N : chat ev <> soul_scanner_bot_username)
      by (intros K; apply peer_eqb_eq in K; congruence).
    rewrite (on_event_keeps_scanner a ev n w N W G).
    split; [split; [discriminate|tauto]|discriminate].
Qed.

End Replies.

Lemma scanner_advances_first_quoted_witness :
  reachable two_at_scanner
  /\ dict_get (pending_ca_for_analysis two_at_scanner) system_program
     = Some a_soul_scanner
  /\ dict_get (pending_ca_for_analysis
                 (on_event (scanner_reply wrapped_sol) net_ok two_at_scanner))
              system_program
     = Some a_waiting_for_th_response
  /\ sent (on_event (scanner_reply wrapped_sol) net_ok two_at_scanner)
     = sent two_at_scanner
         ++ [(phanes_bot_username, lit "/th " ++ system_program)].
Proof.
  assert (R : reachable two_at_scanner)
    by (apply run_reachable, reach_initial).
  assert (G : dict_get (pending_ca_for_analysis two_at_scanner)
                system_program = Some a_soul_scanner)
    by (vm_compute; reflexivity).
  destruct (scanner_advances_first_quoted system_program
              (scanner_reply wrapped_sol) net_ok two_at_scanner R G)
    as [[_ Adv] Snd].
  assert (A : dict_get (pending_ca_for_analysis
                 (on_event (scanner_reply wrapped_sol) net_ok two_at_scanner))
              system_program = Some a_waiting_for_th_response)
    by (apply Adv; vm_compute; auto).
  auto.
Defined.

(** C7 as worded fails: the scanner's reply quotes the second key while
    that key is at [SentToScanner], and the key stays there; the first
    key, which the quoted text happens to contain, is advanced in its
    place. *)
Lemma advances_exactly_when_quoted_counterexample :
  ~ advances_exactly_when_quoted wrapped_sol (scanner_reply wrapped_sol)
      net_ok two_at_scanner.
Proof.
  intros H. destruct H as [_ H]; [reflexivity|].
  assert (K : dict_get
                (pending_ca_for_analysis
                   (on_event (scanner_reply wrapped_sol) net_ok
                      two_at_scanner)) wrapped_sol
              = Some a_waiting_for_th_response)
    by (apply H; split; reflexivity).
  vm_compute in K; discriminate K.
Qed.

(** *** The second agent *)

Section SecondAgent.

Context {solders : Solders}.

Lemma first_item_some (cond : pystr -> state -> bool) (d : dict)
      (k : pystr) (st : state) :
  In (k, st) d -> cond k st = true -> exists x, first_item cond d = Some x.
Proof.
  induction d as [|[k' v'] d IH]; cbn [In first_item]; [tauto|].
  intros [E|I] C.
  - inversion E; subst; rewrite C; eauto.
  - destruct (cond k' v'); eauto.
Qed.

Lemma at_state_some (s : state) (d : dict) (k : pystr) :
  dict_get d k = Some s -> exists x, at_state s d = Some x.
Proof.
  intros G; apply dict_get_Some_In in G.
  apply (first_item_some _ d k s G).
  apply state_eqb_eq; reflexivity.
Qed.

Lemma at_state_del_other (s s' : state) (d : dict) (k : pystr) :
  dict_get d k = Some s' -> s <> s' ->
  at_state s (dict_del d k) = at_state s d.
Proof.
  intros G N; induction d as [|[k' v'] d IH];
    cbn [dict_del dict_get] in *; [reflexivity|].
  unfold at_state in *; eqb_cases k k'.
  - inversion G; subst; cbn [first_item].
    destruct (state_eqb s' s) eqn:E; [|reflexivity].
    apply state_eqb_eq in E; congruence.
  - cbn [first_item]. destruct (state_eqb v' s); [reflexivity|auto].
Qed.

Lemma found_at_state_wf (s : state) (d : dict) :
  wf d -> found (at_state s d) = at_state s d.
Proof. apply found_wf. Qed.

Lemma steps_app (l1 l2 : list (level * logmsg)) :
  steps (l1 ++ l2) = steps l1 ++ steps l2.
Proof.
  induction l1 as [|r l1 IH]; cbn [app steps]; [reflexivity|].
  destruct (step_of r); cbn [app]; rewrite IH; reflexivity.
Qed.

Lemma skipn_length_app {A : Type} (l new : list A) :
  skipn (length l) (l ++ new) = new.
Proof. induction l as [|x l IH]; cbn; auto. Qed.

Lemma on_event_phanes (ev : event) (n : net) (w : world) :
  chat ev = phanes_bot_username ->
  on_event ev n w
  = dispatch_update
      (map (fun r => (trigger r, handler r)) (skipn 2 stage_table)) ev n w.
Proof.
  intros E; unfold on_event, event_builders.
  rewrite !dispatch_update_skip by (rewrite E; reflexivity).
  reflexivity.
Qed.

(** The two BNB steps, run on a world [w]. *)
Lemma bnb_steps_run (ev : event) (n : net) (w : world) :
  chat ev = phanes_bot_username ->
  commands_delivered n ->
  wf (pending_ca_for_analysis w) ->
  exists new,
    logs (dispatch_update
            (map (fun r => (trigger r, handler r)) (skipn 4 stage_table))
            ev n w) = logs w ++ new
    /\ steps new = bnb_dispatch (pending_ca_for_analysis w).
Proof.
  intros E D W; cbn [skipn stage_table map trigger handler].
  rewrite dispatch_update_skip by (rewrite E; reflexivity).
  rewrite dispatch_update_cons by exact E.
  rewrite bnb_phanes_initial_response_handler_eq; cbv zeta.
  unfold bnb_dispatch, stopped; rewrite found_at_state_wf by assumption.
  destruct (at_state b_waiting_for_response _) as [x|].
  - rewrite D; cbn [logs]; eexists; split; reflexivity.
  - rewrite dispatch_update_cons by exact E.
    rewrite bnb_phanes_tt_response_handler_eq; cbv zeta.
    rewrite found_at_state_wf by assumption.
    destruct (at_state b_waiting_for_tt_response _) as [x|];
      cbn [dispatch_update logs].
    + rewrite <- app_assoc; eexists; split; [reflexivity|].
      unfold outcome_B; destruct (n bnb_target_group x); reflexivity.
    + exists []; rewrite app_nil_r; auto.
Qed.

Lemma priority_dispatch_run (ev : event) (n : net) (w : world) :
  chat ev = phanes_bot_username ->
  commands_delivered n ->
  wf (pending_ca_for_analysis w) ->
  exists new,
    logs (on_event ev n w) = logs w ++ new
    /\ steps new = priority_dispatch (pending_ca_for_analysis w).
Proof.
  intros E D W; rewrite on_event_phanes by exact E.
  cbn [skipn stage_table map trigger handler].
  rewrite dispatch_update_cons by exact E.
  rewrite sol_phanes_th_response_handler_eq; cbv zeta.
  unfold priority_dispatch, stopped;
    rewrite found_at_state_wf by assumption.
  destruct (at_state a_waiting_for_th_response _) as [x|].
  - rewrite D; cbn [logs]; eexists; split; reflexivity.
  - rewrite dispatch_update_cons by exact E.
    rewrite sol_phanes_tt_response_handler_eq; cbv zeta.
    rewrite found_at_state_wf by assumption.
    destruct (at_state a_waiting_for_tt_response _) as [x|] eqn:A.
    + apply at_state_get in A; [|apply W].
      unfold dict_in; rewrite A.
      match goal with
      | |- context [dispatch_update ?bs ev n ?w2] =>
          destruct (bnb_steps_run ev n w2 E D) as [new [L S]];
          [cbn [pending_ca_for_analysis]; apply wf_del; exact W|]
      end.
      cbn [skipn stage_table map trigger handler] in L.
      rewrite L; cbn [logs pending_ca_for_analysis] in *.
      rewrite <- !app_assoc; eexists; split; [reflexivity|].
      cbn [app]. unfold outcome_A at 1.
      replace (steps _) with ((SOL, 2) :: steps new)
        by (destruct (n sol_target_group x); reflexivity).
      rewrite S; cbn [app]; f_equal.
      unfold bnb_dispatch.
      rewrite !(at_state_del_other _ a_waiting_for_tt_response _ x A)
        by discriminate.
      reflexivity.
    + destruct (bnb_steps_run ev n w E D W) as [new [L S]].
      cbn [skipn stage_table map trigger handler] in L.
      rewrite L; eauto.
Qed.

Lemma priority_dispatch_per_chain (d : dict) (c : chain) :
  steps_of_chain c (priority_dispatch d) <= 1.
Proof.
  unfold priority_dispatch, bnb_dispatch.
  destruct (at_state a_waiting_for_th_response d),
           (at_state a_waiting_for_tt_response d),
           (at_state b_waiting_for_response d),
           (at_state b_waiting_for_tt_response d), c; cbn; lia.
Qed.

(** C1, amended. A reply of the second agent, when the commands sent
    to that agent get through, is handed to the four correlator steps
    in the fixed order Solana step one, Solana step two, BNB step one,
    BNB step two, and the steps that act are those of
    [priority_dispatch]: at most one step per chain; step two of a
    chain only when no instance of that chain waits for step one; a
    step one that acts ends the dispatch for both chains; a Solana
    step two that acts does not, and a BNB step may follow it on the
    same reply. *)
Theorem reply_dispatch_priority (ev : event) (n : net) (w : world) :
  reachable w ->
  chat ev = phanes_bot_username ->
  commands_delivered n ->
  steps_on ev n w = priority_dispatch (pending_ca_for_analysis w)
  /\ (forall c, steps_of_chain c (steps_on ev n w) <= 1)
  /\ (In (SOL, 2) (steps_on ev n w) ->
      at_state a_waiting_for_th_response (pending_ca_for_analysis w) = None)
  /\ (In (BNB, 2) (steps_on ev n w) ->
      at_state b_waiting_for_response (pending_ca_for_analysis w) = None)
  /\ (In (SOL, 1) (steps_on ev n w) -> steps_on ev n w = [(SOL, 1)]).
Proof.
  intros R E D. pose proof (reachable_wf w R) as W.
  destruct (priority_dispatch_run ev n w E D W) as [new [L S]].
  assert (Eq : steps_on ev n w
               = priority_dispatch (pending_ca_for_analysis w))
    by (unfold steps_on; rewrite L, skipn_length_app; exact S).
  rewrite Eq; split; [reflexivity|].
  split; [intros c; apply priority_dispatch_per_chain|].
  unfold priority_dispatch, bnb_dispatch.
  destruct (at_state a_waiting_for_th_response (pending_ca_for_analysis w)),
           (at_state a_waiting_for_tt_response (pending_ca_for_analysis w)),
           (at_state b_waiting_for_response (pending_ca_for_analysis w)),
           (at_state b_waiting_for_tt_response (pending_ca_for_analysis w));
    cbn;
    repeat split; intros H; try reflexivity; exfalso;
    intuition discriminate.
Qed.

(** C9. When two addresses wait for the reply to [/th], one reply of
    the second agent advances exactly one instance of that stage, the
    first in the order of the dictionary: it leaves that stage (for the
    next one, or for the forward when the dispatch goes on), and every
    other instance of that stage keeps it. When the two addresses are
    the only ones in that stage, the one that advances is one of
    them. *)
Theorem one_reply_advances_one
        (a b : pystr) (ev : event) (n : net) (w : world) :
  reachable w ->
  chat ev = phanes_bot_username ->
  a <> b ->
  dict_get (pending_ca_for_analysis w) a = Some a_waiting_for_th_response ->
  dict_get (pending_ca_for_analysis w) b = Some a_waiting_for_th_response ->
  exists x,
    dict_get (pending_ca_for_analysis w) x = Some a_waiting_for_th_response
    /\ (dict_get (pending_ca_for_analysis (on_event ev n w)) x
          = Some a_waiting_for_tt_response
        \/ dict_get (pending_ca_for_analysis (on_event ev n w)) x = None)
    /\ (forall y,
           y <> x ->
           dict_get (pending_ca_for_analysis w) y
             = Some a_waiting_for_th_response ->
           dict_get (pending_ca_for_analysis (on_event ev n w)) y
             = Some a_waiting_for_th_response)
    /\ ((forall k,
            dict_get (pending_ca_for_analysis w) k
              = Some a_waiting_for_th_response -> k = a \/ k = b) ->
        x = a \/ x = b).
Proof.
  intros R E Nab Ga Gb. pose proof (reachable_wf w R) as W.
  destruct (at_state_some _ _ _ Ga) as [x A].
  pose proof (at_state_get _ _ _ (proj1 W) A) as Gx.
  exists x; split; [exact Gx|].
  set (P := fun w' : world =>
              wf (pending_ca_for_analysis w')
              /\ (dict_get (pending_ca_for_analysis w') x
                    = Some a_waiting_for_tt_response
                  \/ dict_get (pending_ca_for_analysis w') x = None)
              /\ (forall y,
                     y <> x ->
                     dict_get (pending_ca_for_analysis w) y
                       = Some a_waiting_for_th_response ->
                     dict_get (pending_ca_for_analysis w') y
                       = Some a_waiting_for_th_response)).
  assert (Final : P (on_event ev n w)).
  { rewrite on_event_phanes by exact E.
    cbn [skipn stage_table map trigger handler].
    rewrite dispatch_update_cons by exact E.
    rewrite sol_phanes_th_response_handler_eq; cbv zeta.
    rewrite found_at_state_wf, A by assumption.
    assert (Tx : truthy x = true).
    { destruct W as [_ T]; rewrite Forall_forall in T; apply T.
      eapply In_keys, dict_get_Some_In; eauto. }
    match goal with
    | |- context [log_unhandled _ ?w1] =>
        assert (P1 : P w1);
        [|assert (Rest : forall w', P w' ->
                    P (dispatch_update
                         (map (fun r => (trigger r, handler r))
                              (skipn 3 stage_table)) ev n w'))]
    end.
    - split; [apply wf_set; assumption|]; cbn [pending_ca_for_analysis].
      split; [left; apply dict_get_set_eq|].
      intros y Ny Gy; rewrite dict_get_set_neq; assumption.
    - apply dispatch_rows_inv; [|intros e w0 H; exact H].
      intros r w0 I Et [W0 [X0 Y0]].
      assert (Ir : In r stage_table /\ exists s, from_state r = Some s
                                                 /\ s <> a_waiting_for_th_response).
      { cbn [skipn stage_table In] in I.
        decompose [or] I; subst; cbn [trigger from_state] in *;
          try contradiction;
          try (rewrite E in Et; discriminate Et);
          (split; [cbn; auto 10|eexists; split; [reflexivity|discriminate]]). }
      destruct Ir as [Ir [s [Fr Ns]]].
      split; [apply row_wf; assumption|]; split.
      + destruct X0 as [X0|X0].
        * destruct (dict_move_get _ _ x (proj1 W0)
                      (row_move r ev n w0 Ir (proj1 W0))) as [K|K].
          -- left; rewrite K; exact X0.
          -- rewrite X0 in K; apply advances_cases in K.
             decompose [or and] K; try discriminate; auto.
        * right; rewrite row_frame; [exact X0|exact Ir|apply W0|].
          rewrite X0, Fr; discriminate.
      + intros y Ny Gy; rewrite row_frame; auto; [apply W0|].
        rewrite (Y0 y Ny Gy), Fr; congruence.
    - unfold stopped.
      destruct (n phanes_bot_username (lit "/tt " ++ x)) as [[]|];
        try exact P1; apply Rest; exact P1. }
  destruct Final as [_ [X Y]].
  split; [exact X|]. split; [exact Y|].
  intros Only; apply Only; exact Gx.
Qed.

End SecondAgent.

Lemma reply_dispatch_priority_witness :
  reachable sol_step_two_bnb_step_one
  /\ chat phanes_reply = phanes_bot_username
  /\ commands_delivered net_ok
  /\ steps_on phanes_reply net_ok sol_step_two_bnb_step_one
     = priority_dispatch (pending_ca_for_analysis sol_step_two_bnb_step_one)
  /\ forall c,
       steps_of_chain c (steps_on phanes_reply net_ok
                           sol_step_two_bnb_step_one) <= 1.
Proof.
  assert (R : reachable sol_step_two_bnb_step_one)
    by (apply run_reachable, run_reachable, reach_initial).
  assert (D : commands_delivered net_ok) by (intros text; reflexivity).
  destruct (reply_dispatch_priority phanes_reply net_ok
              sol_step_two_bnb_step_one R eq_refl D) as [E [C _]].
  auto.
Defined.

(** C1 as worded fails, under either reading of it. With a Solana
    address waiting for step one and a BNB address waiting for step one,
    the reply is consumed by the Solana step and the BNB chain gets no
    step at all. With the Solana address waiting for step two instead,
    the Solana step consumes the reply and the BNB step, later in the
    order, acts on the same reply as well. *)
Lemma dispatch_discipline_counterexample :
  ~ exactly_one_step_per_chain phanes_reply net_ok sol_step_one_bnb_step_one
  /\ ~ no_later_step phanes_reply net_ok sol_step_two_bnb_step_one.
Proof.
  split.
  - intros H; specialize (H BNB eq_refl); vm_compute in H; discriminate H.
  - unfold no_later_step.
    replace (steps_on phanes_reply net_ok sol_step_two_bnb_step_one)
      with [(SOL, 2); (BNB, 1)] by (vm_compute; reflexivity).
    cbn; lia.
Qed.

(** Why the commands must get through: a handler that fails on its
    [send_message] never reaches its [raise events.StopPropagation], so
    the walk goes on and all four steps act on the one reply. *)
Example undelivered_commands_run_every_step :
  steps_on phanes_reply net_no_commands sol_step_one_bnb_step_one
  = [(SOL, 1); (SOL, 2); (BNB, 1); (BNB, 2)].
Proof. vm_compute; reflexivity. Qed.

Lemma one_reply_advances_one_witness :
  reachable two_at_step_one
  /\ system_program <> wrapped_sol
  /\ dict_get (pending_ca_for_analysis two_at_step_one) system_program
     = Some a_waiting_for_th_response
  /\ dict_get (pending_ca_for_analysis two_at_step_one) wrapped_sol
     = Some a_waiting_for_th_response
  /\ exists x,
       dict_get (pending_ca_for_analysis two_at_step_one) x
       = Some a_waiting_for_th_response
       /\ (dict_get (pending_ca_for_analysis
                       (on_event phanes_reply net_ok two_at_step_one)) x
           = Some a_waiting_for_tt_response
           \/ dict_get (pending_ca_for_analysis
                          (on_event phanes_reply net_ok two_at_step_one)) x
              = None)
       /\ (forall y,
              y <> x ->
              dict_get (pending_ca_for_analysis two_at_step_one) y
              = Some a_waiting_for_th_response ->
              dict_get (pending_ca_for_analysis
                          (on_event phanes_reply net_ok two_at_step_one)) y
              = Some a_waiting_for_th_response)
       /\ ((forall k,
               dict_get (pending_ca_for_analysis two_at_step_one) k
               = Some a_waiting_for_th_response ->
               k = system_program \/ k = wrapped_sol) ->
           x = system_program \/ x = wrapped_sol).
Proof.
  assert (R : reachable two_at_step_one)
    by (apply run_reachable, run_reachable, reach_initial).
  assert (N : system_program <> wrapped_sol) by (vm_compute; discriminate).
  assert (Ga : dict_get (pending_ca_for_analysis two_at_step_one)
                 system_program = Some a_waiting_for_th_response)
    by (vm_compute; reflexivity).
  assert (Gb : dict_get (pending_ca_for_analysis two_at_step_one)
                 wrapped_sol = Some a_waiting_for_th_response)
    by (vm_compute; reflexivity).
  repeat (split; [assumption|]).
  exact (one_reply_advances_one system_program wrapped_sol phanes_reply
           net_ok two_at_step_one R eq_refl N Ga Gb).
Defined.

(** ** The scenarios of section 8, run *)

(** Scenario 1: a Solana post with the marker and a valid key in its
    link opens an instance at [SentToScanner] and the key goes to the
    scanner agent. *)
Example scenario_1 :
  extract_ca (sol_post wrapped_sol) false = Ok (Some wrapped_sol)
  /\ on_event (sol_post wrapped_sol) net_ok initial_world
     = World [(wrapped_sol, a_soul_scanner)]
             [(soul_scanner_bot_username, wrapped_sol)]
             [(INFO, PipelineA_START wrapped_sol)].
Proof. split; vm_compute; reflexivity. Qed.

(** Scenario 3: the scanner's reply quoting the pending key moves it to
    [AwaitingStepOneReply] and the [/th] command is sent. *)
Example scenario_3 :
  on_event (scanner_reply wrapped_sol) net_ok
    (World [(wrapped_sol, a_soul_scanner)] [] [])
  = World [(wrapped_sol, a_waiting_for_th_response)]
          [(phanes_bot_username, lit "/th " ++ wrapped_sol)]
          [(INFO, PipelineA_Step2 wrapped_sol)].
Proof. vm_compute; reflexivity. Qed.

(** Scenario 4: a BNB post goes through two replies of the second agent
    to the forward; the destination group cannot be reached and the
    instance is removed all the same. *)
Example scenario_4 :
  pending_ca_for_analysis
    (run [(bnb_post bsc_usd, net_ok); (phanes_reply, net_ok)] initial_world)
  = [(bsc_usd, b_waiting_for_tt_response)]
  /\ run [(bnb_post bsc_usd, net_ok); (phanes_reply, net_ok);
          (phanes_reply, net_no_forward)] initial_world
     = World []
             [(phanes_bot_username, bsc_usd);
              (phanes_bot_username, lit "/tt " ++ bsc_usd);
              (bnb_target_group, bsc_usd)]
             [(INFO, PipelineB_START bsc_usd);
              (INFO, PipelineB_Step2 bsc_usd);
              (INFO, PipelineB_Final_Step bsc_usd);
              (ERROR, Pipeline_ERROR_B (RPCError 400))].
Proof. split; vm_compute; reflexivity. Qed.

(** * Further properties of the code *)

(** ** What [extract_ca] returns *)

Lemma greedy_spec (cls : char -> bool) (n : nat) (s : pystr) :
  forallb cls (greedy cls n s) = true
  /\ length (greedy cls n s) <= n
  /\ exists rest, s = greedy cls n s ++ rest.
Proof.
  revert s; induction n as [|n IH]; intros s.
  - cbn; repeat split; [lia|exists s; destruct s; reflexivity].
  - destruct s as [|c s]; cbn [greedy].
    + cbn; repeat split; [lia|exists []; reflexivity].
    + destruct (cls c) eqn:E.
      * destruct (IH s) as [F [L [rest R]]].
        cbn [forallb length app]; rewrite E, F.
        repeat split; [lia|exists rest; congruence].
      * cbn; repeat split; [lia|eauto].
Qed.

Lemma solana_pattern_match (s m : pystr) :
  solana_address_pattern s = Some m ->
  solana_shape m = true /\ exists rest, s = m ++ rest.
Proof.
  unfold solana_address_pattern, solana_shape; cbv zeta.
  destruct (greedy_spec is_base58 44 s) as [F [L R]].
  remember (greedy is_base58 44 s) as g eqn:G; clear G.
  destruct (32 <=? length g) eqn:E; [|discriminate].
  intros [= <-]; rewrite E, F.
  split; [|exact R].
  apply Nat.leb_le in L; rewrite L; reflexivity.
Qed.

(** The two literal characters of the EVM pattern, as tests. *)
Lemma evm_address_pattern_eq (s : pystr) :
  evm_address_pattern s =
  match s with
  | c0 :: c1 :: rest =>
      if (N.eqb c0 48 && N.eqb c1 120)%bool
      then (if length (greedy is_hex 40 rest) =? 40
            then Some (48%N :: 120%N :: greedy is_hex 40 rest) else None)
      else None
  | _ => None
  end.
Proof.
  destruct s as [|c0 [|c1 rest]]; try reflexivity.
  - unfold evm_address_pattern. destruct c0 as [|p]; [reflexivity|].
    repeat (destruct p as [p|p|]; try reflexivity).
  - unfold evm_address_pattern.
    destruct (N.eqb_spec c0 48) as [->|N0].
    + destruct (N.eqb_spec c1 120) as [->|N1]; [reflexivity|].
      cbn [andb]. destruct c1 as [|p]; [reflexivity|].
      do 7 (try destruct p as [p|p|]); try reflexivity; congruence.
    + cbn [andb]. destruct c0 as [|p]; [reflexivity|].
      do 6 (try destruct p as [p|p|]); try reflexivity; congruence.
Qed.

Lemma evm_pattern_match (s m : pystr) :
  evm_address_pattern s = Some m ->
  evm_shape m = true /\ exists rest, s = m ++ rest.
Proof.
  rewrite evm_address_pattern_eq.
  destruct s as [|c0 [|c1 s]]; try discriminate.
  destruct (N.eqb_spec c0 48) as [->|]; [|discriminate].
  destruct (N.eqb_spec c1 120) as [->|]; [|discriminate].
  cbn [andb].
  destruct (greedy_spec is_hex 40 s) as [F [L [rest R]]].
  remember (greedy is_hex 40 s) as g eqn:G; clear G.
  destruct (length g =? 40) eqn:E; [|discriminate].
  intros [= <-]; unfold evm_shape; rewrite E, F; split; [reflexivity|].
  exists rest; cbn [app]; congruence.
Qed.

Lemma findall_from_In (p : pattern) (m : pystr) (s : pystr) (k : nat) :
  In m (findall_from p k s) ->
  exists pre suf, s = pre ++ suf /\ p suf = Some m.
Proof.
  revert k; induction s as [|c s IH]; intros k; cbn [findall_from];
    [intros H; destruct H|].
  assert (Later : forall k', In m (findall_from p k' s) ->
                  exists pre suf, c :: s = pre ++ suf /\ p suf = Some m).
  { intros k' H; destruct (IH k' H) as [pre [suf [E P]]].
    exists (c :: pre), suf; cbn [app]; split; congruence. }
  destruct k as [|k]; [|apply Later].
  destruct (p (c :: s)) as [m'|] eqn:E; [|apply Later].
  intros [<-|H]; [exists [], (c :: s); auto|eapply Later; eauto].
Qed.

Lemma startswith_app (m rest : pystr) : startswith (m ++ rest) m = true.
Proof.
  induction m as [|x m IH]; cbn [app startswith];
    [destruct rest; reflexivity|].
  unfold char_eqb; rewrite N.eqb_refl; exact IH.
Qed.

Lemma str_in_app (m pre rest : pystr) : str_in m (pre ++ m ++ rest) = true.
Proof.
  induction pre as [|x pre IH]; cbn [app].
  - destruct (m ++ rest) eqn:E; cbn [str_in]; rewrite <- E, startswith_app;
      reflexivity.
  - cbn [str_in]; rewrite IH; apply orb_true_r.
Qed.

Lemma findall_occurs (c : chain) (m s : pystr) :
  In m (findall (address_pattern c) s) ->
  (match c with SOL => solana_shape m | BNB => evm_shape m end) = true
  /\ str_in m s = true.
Proof.
  intros H; apply findall_from_In in H.
  destruct H as [pre [suf [-> P]]].
  destruct c; cbn [address_pattern] in P;
    [apply solana_pattern_match in P|apply evm_pattern_match in P];
    destruct P as [Sh [rest ->]]; auto using str_in_app.
Qed.

Lemma shape_truthy (c : chain) (m : pystr) :
  (match c with SOL => solana_shape m | BNB => evm_shape m end) = true ->
  truthy m = true.
Proof. destruct c, m; cbn; congruence. Qed.

Section ExtractorShape.

Context {solders : Solders}.

Lemma Extract_Some (ev : event) (c : chain) (a : pystr) :
  Extract ev c = Some a ->
  validator c a = true
  /\ (In a (findall (address_pattern c) (raw_text ev))
      \/ exists url, In (MessageEntityTextUrl url) (entities ev)
                     /\ In a (findall (address_pattern c) url)).
Proof.
  unfold Extract, hyperlink_urls.
  destruct (find (validator c) (flat_map _ _)) as [a'|] eqn:F.
  - intros [= ->]; apply find_some in F; destruct F as [I V].
    split; [exact V|right].
    apply in_flat_map in I; destruct I as [url [Iu Ia]].
    apply in_flat_map in Iu; destruct Iu as [e [Ie Iurl]].
    destruct e as [url'|]; [|contradiction].
    destruct Iurl as [->|[]]; eauto.
  - intros F'; apply find_some in F'; tauto.
Qed.

Lemma extract_ca_accepts (c : chain) (ev : event) (a : pystr) :
  extract_ca ev (is_bnb c) = Ok (Some a) ->
  address_shape c a = true /\ occurs_in_message a ev.
Proof.
  rewrite extract_ca_eq; intros [= E].
  apply Extract_Some in E; destruct E as [V Where].
  assert (Sh : (match c with SOL => solana_shape a | BNB => evm_shape a end)
               = true /\ occurs_in_message a ev).
  { destruct Where as [I|[url [Iu I]]]; apply findall_occurs in I;
      destruct I as [Sh O]; (split; [exact Sh|]);
      [left; exact O|right; eauto]. }
  destruct Sh as [Sh O]; split; [|exact O].
  destruct c; cbn [address_shape validator] in *; [rewrite Sh, V|];
    auto.
Qed.

Lemma address_shape_truthy (c : chain) (a : pystr) :
  address_shape c a = true -> truthy a = true.
Proof.
  intros H; apply (shape_truthy c).
  destruct c; cbn [address_shape] in H; [|exact H].
  apply andb_true_iff in H; tauto.
Qed.

(** X1. Whatever [extract_ca] returns is a match of the chain's pattern
    that the chain's validator accepted, it is written in the raw text
    or in the url of a text link of the message, and it is never the
    empty string (so the [else] of [if found_ca_to_send:] is the branch
    of [None] only). *)
Theorem extracted_address_shape (c : chain) (ev : event) (a : pystr) :
  extract_ca ev (is_bnb c) = Ok (Some a) ->
  address_shape c a = true
  /\ occurs_in_message a ev
  /\ truthy a = true.
Proof.
  intros E; destruct (extract_ca_accepts c ev a E) as [Sh O].
  split; [exact Sh|]. split; [exact O|].
  exact (address_shape_truthy c a Sh).
Qed.

End ExtractorShape.

(** X2. On the BNB channel the extractor never consults the decoder:
    its result is the same whatever [solders] does, were it missing. *)
Theorem bnb_extraction_ignores_decoder
        (s1 s2 : Solders) (ev : event) :
  @extract_ca s1 ev true = @extract_ca s2 ev true.
Proof.
  change true with (is_bnb BNB).
  rewrite (@extract_ca_eq s1 ev BNB), (@extract_ca_eq s2 ev BNB).
  reflexivity.
Qed.

Lemma extracted_address_shape_witness :
  extract_ca (sol_post wrapped_sol) (is_bnb SOL) = Ok (Some wrapped_sol)
  /\ address_shape SOL wrapped_sol = true
  /\ occurs_in_message wrapped_sol (sol_post wrapped_sol)
  /\ truthy wrapped_sol = true.
Proof.
  assert (E : extract_ca (sol_post wrapped_sol) (is_bnb SOL)
              = Ok (Some wrapped_sol)) by (vm_compute; reflexivity).
  split; [exact E|].
  exact (extracted_address_shape SOL (sol_post wrapped_sol) wrapped_sol E).
Defined.

(** ** One handler call, dictionary and outbox together *)

Section HandlerCalls.

Context {solders : Solders}.

Lemma dict_set_new (d : dict) (k : pystr) (v : state) :
  dict_get d k = None -> dict_set d k v = d ++ [(k, v)].
Proof.
  induction d as [|[k' v'] d IH]; cbn [dict_get dict_set app];
    [reflexivity|].
  eqb_cases k k'; [discriminate|].
  intros G; rewrite IH by exact G; reflexivity.
Qed.

(** The source handlers: nothing but a log record, or a new instance
    for the extracted address and the address sent to the first agent. *)
Lemma source_effect (c : chain) (ev : event) (n : net) (w : world) :
  (pending_ca_for_analysis (snd (source_handler c ev n w))
     = pending_ca_for_analysis w
   /\ sent (snd (source_handler c ev n w)) = sent w)
  \/ exists k,
       extract_ca ev (is_bnb c) = Ok (Some k)
       /\ dict_get (pending_ca_for_analysis w) k = None
       /\ pending_ca_for_analysis (snd (source_handler c ev n w))
          = dict_set (pending_ca_for_analysis w) k (first_state c)
       /\ sent (snd (source_handler c ev n w))
          = sent w ++ [(first_agent c, k)].
Proof.
  rewrite extract_ca_eq.
  destruct c; cbn [source_handler first_state first_agent];
    [rewrite sol_handler_eq|rewrite bnb_handler_eq]; cbv zeta;
    (destruct (negb _); [auto|]);
    match goal with
    | |- context [found (Extract ev ?c)] =>
        destruct (Extract ev c) as [k|] eqn:X; cbn [found]; [|auto];
        destruct (truthy k); [|auto];
        destruct (dict_in k (pending_ca_for_analysis w)) eqn:D; [auto|];
        right; exists k; cbn [snd pending_ca_for_analysis sent];
        auto using dict_in_false
    end.
Qed.

(** A row either leaves the dictionary and the outbox as they are, or
    acts on one address in the state of the row and makes the one
    [send_message] call of its stage. *)
Lemma row_effect_full
        (r : StageDefinition) (ev : event) (n : net) (w : world) :
  In r stage_table ->
  NoDup (keys (pending_ca_for_analysis w)) ->
  (pending_ca_for_analysis (snd (handler r ev n w))
     = pending_ca_for_analysis w
   /\ sent (snd (handler r ev n w)) = sent w)
  \/ exists k,
       dict_get (pending_ca_for_analysis w) k = from_state r
       /\ truthy k = true
       /\ pending_ca_for_analysis (snd (handler r ev n w))
          = apply_row (to_state r) (pending_ca_for_analysis w) k
       /\ sent (snd (handler r ev n w))
          = sent w ++ [action (from_state r) (to_state r) k].
Proof.
  intros I ND; cbn [stage_table In] in I.
  decompose [or] I; clear I; subst;
    cbn [handler from_state to_state apply_row action]; try contradiction.
  - destruct (source_effect SOL ev n w) as [H|[k [X [G [P S]]]]]; [auto|].
    right; exists k; repeat split; auto.
    apply (address_shape_truthy SOL), (extract_ca_accepts SOL ev k X).
  - rewrite sol_soul_scanner_handler_eq; cbv zeta.
    destruct (found _) as [ca|] eqn:F; [|auto].
    pose proof (found_Some_truthy _ _ F) as [_ T].
    apply found_scanned in F; [|assumption]; destruct F as [G _].
    right; exists ca; auto.
  - rewrite sol_phanes_th_response_handler_eq; cbv zeta.
    destruct (found _) as [ca|] eqn:F; [|auto].
    apply found_at_state in F; [|assumption]; destruct F as [G [_ T]].
    right; exists ca; auto.
  - rewrite sol_phanes_tt_response_handler_eq; cbv zeta.
    destruct (found _) as [ca|] eqn:F; [|auto].
    apply found_at_state in F; [|assumption]; destruct F as [G [D T]].
    right; exists ca; cbn [snd pending_ca_for_analysis sent]; rewrite D; auto.
  - destruct (source_effect BNB ev n w) as [H|[k [X [G [P S]]]]]; [auto|].
    right; exists k; repeat split; auto.
    apply (address_shape_truthy BNB), (extract_ca_accepts BNB ev k X).
  - rewrite bnb_phanes_initial_response_handler_eq; cbv zeta.
    destruct (found _) as [ca|] eqn:F; [|auto].
    apply found_at_state in F; [|assumption]; destruct F as [G [_ T]].
    right; exists ca; auto.
  - rewrite bnb_phanes_tt_response_handler_eq; cbv zeta.
    destruct (found _) as [ca|] eqn:F; [|auto].
    apply found_at_state in F; [|assumption]; destruct F as [G [D T]].
    right; exists ca; cbn [snd pending_ca_for_analysis sent]; rewrite D; auto.
Qed.

(** X3. From a reachable world, a step of a handler leaves the
    dictionary and the outbox as they are, or acts on exactly one
    address, in one of three ways. A handler that runs to its send
    moves the address one stage forward (into the dictionary or to the
    next state; out of it when a forward handler runs with nothing
    handled during its send) and makes exactly one [send_message]
    call, the one of that stage, whether the call returns or raises. A
    forward handler that is overtaken during its send has requested
    that one send for an address waiting for the reply to [/tt] and
    has left the dictionary alone. And when such a handler goes on
    after its send it makes no further call and deletes the one
    address it had sent, if that address is in the dictionary. *)
Theorem handler_acts_on_one_address (w w' : world) :
  reachable w -> handler_step w w' ->
  (pending_ca_for_analysis w' = pending_ca_for_analysis w
   /\ sent w' = sent w)
  \/ (exists k from to,
        dict_get (pending_ca_for_analysis w) k = from
        /\ advances from to = true
        /\ pending_ca_for_analysis w'
           = apply_row to (pending_ca_for_analysis w) k
        /\ sent w' = sent w ++ [action from to k])
  \/ (exists c k,
        dict_get (pending_ca_for_analysis w) k = Some (step_two_state c)
        /\ pending_ca_for_analysis w' = pending_ca_for_analysis w
        /\ sent w' = sent w ++ [(target_group c, k)])
  \/ (exists c k,
        In (target_group c, k) (sent w)
        /\ dict_in k (pending_ca_for_analysis w) = true
        /\ pending_ca_for_analysis w'
           = dict_del (pending_ca_for_analysis w) k
        /\ sent w' = sent w).
Proof.
  intros R H; destruct (reachable_wf w R) as [ND _].
  destruct H as [chats callback ev n w I _| |c n w ca w' S|c ca n w I].
  - apply builders_rows in I; destruct I as [r [I [_ <-]]].
    destruct (row_effect_full r ev n w I ND) as [U|[k [G [_ [P S]]]]];
      [left; exact U|right; left].
    exists k, (from_state r), (to_state r).
    split; [exact G|]. split; [apply stage_table_advances; exact I|].
    split; [exact P|exact S].
  - left; split; reflexivity.
  - apply forward_suspended in S; [|exact ND]; destruct S as [G ->].
    right; right; left; exists c, ca; auto.
  - rewrite forward_after_await_eq; cbn [snd pending_ca_for_analysis sent].
    destruct (dict_in ca (pending_ca_for_analysis w)) eqn:D;
      [|left; split; reflexivity].
    right; right; right; exists c, ca; auto.
Qed.

End HandlerCalls.

Lemma handler_acts_on_one_address_witness :
  reachable first_forward_resumed
  /\ handler_step second_forward_suspended first_forward_resumed
  /\ sent first_forward_resumed = sent second_forward_suspended
  /\ pending_ca_for_analysis first_forward_resumed = [].
Proof.
  assert (R0 : reachable at_step_two)
    by (apply run_reachable, reach_initial).
  assert (R1 : reachable first_forward_suspended).
  { apply reach_step with (w := at_step_two); [exact R0|].
    apply step_forward_suspended
      with (c := SOL) (n := net_ok) (found_ca := wrapped_sol).
    vm_compute; reflexivity. }
  assert (R2 : reachable second_forward_suspended).
  { apply reach_step with (w := first_forward_suspended); [exact R1|].
    apply step_forward_suspended
      with (c := SOL) (n := net_ok) (found_ca := wrapped_sol).
    vm_compute; reflexivity. }
  assert (H : handler_step second_forward_suspended first_forward_resumed)
    by (apply step_forward_resumed; vm_compute; auto).
  split; [exact (reach_step R2 H)|]. split; [exact H|].
  destruct (handler_acts_on_one_address _ _ R2 H)
    as [[P _]|[[k [from [to [_ [_ [_ S]]]]]]
              |[[c [k [_ [_ S]]]]|[c [k [_ [_ [_ S]]]]]]]].
  - vm_compute in P; discriminate P.
  - exfalso; vm_compute in S.
    apply (f_equal (@length _)) in S; cbn [length] in S; lia.
  - exfalso; vm_compute in S.
    apply (f_equal (@length _)) in S; cbn [length] in S; lia.
  - split; [exact S|vm_compute; reflexivity].
Defined.

(** ** Invariants of the reachable worlds *)

Section Invariants.

Context {solders : Solders}.

Lemma stage_table_kinds (r : StageDefinition) :
  In r stage_table ->
  (exists c, handler r = source_handler c
             /\ from_state r = None /\ to_state r = Some (first_state c))
  \/ (exists s0, from_state r = Some s0
                 /\ match to_state r with
                    | Some s' => chain_of s' = chain_of s0
                    | None => True
                    end).
Proof.
  intros I; cbn [stage_table In] in I.
  decompose [or] I; clear I; subst; cbn [handler from_state to_state];
    try contradiction;
    try (right; eexists; split; [reflexivity|cbn; auto]; fail).
  - left; exists SOL; auto.
  - left; exists BNB; auto.
Qed.

Lemma solana_not_evm (a : pystr) :
  solana_shape a = true -> evm_shape a = true -> False.
Proof.
  unfold solana_shape, evm_shape; intros S E.
  destruct a as [|c0 a]; [discriminate|].
  apply andb_true_iff in S; destruct S as [_ S]; cbn [forallb] in S.
  destruct (N.eqb_spec c0 48) as [->|N0]; [discriminate S|].
  destruct c0 as [|p]; [discriminate|].
  do 6 (try destruct p as [p|p|]); try discriminate E; congruence.
Qed.

Lemma address_shape_chain (c c' : chain) (a : pystr) :
  address_shape c a = true -> address_shape c' a = true -> c = c'.
Proof.
  destruct c, c'; cbn [address_shape]; auto; intros H H';
    [apply andb_true_iff in H|apply andb_true_iff in H'];
    exfalso; eapply solana_not_evm; eauto; tauto.
Qed.

Lemma shape_step (w w' : world) :
  NoDup (keys (pending_ca_for_analysis w)) ->
  handler_step w w' ->
  (forall a s, dict_get (pending_ca_for_analysis w) a = Some s ->
               address_shape (chain_of s) a = true) ->
  forall a s, dict_get (pending_ca_for_analysis w') a = Some s ->
              address_shape (chain_of s) a = true.
Proof.
  intros ND H Inv;
    destruct H as [chats callback ev n w I _| |c n w ca w' S|c ca n w _];
    [|exact Inv
     |apply forward_suspended in S; [|exact ND]; destruct S as [_ ->];
      exact Inv
     |rewrite forward_after_await_eq; cbn [snd pending_ca_for_analysis];
      destruct (dict_in ca _); [|exact Inv];
      intros a s; destruct (pystr_eq_dec a ca) as [->|N];
      [rewrite dict_get_del_eq by exact ND; discriminate
      |rewrite dict_get_del_neq by exact N; apply Inv]].
  apply builders_rows in I; destruct I as [r [I [_ <-]]].
  destruct (stage_table_kinds r I) as [[c [Eh [Ef Et]]]|[s0 [Ef Et]]].
  - rewrite Eh.
    destruct (source_effect c ev n w) as [[-> _]|[k [X [G [-> _]]]]];
      [exact Inv|].
    intros a s; destruct (pystr_eq_dec a k) as [->|N].
    + rewrite dict_get_set_eq; intros [= <-].
      replace (chain_of (first_state c)) with c by (destruct c; reflexivity).
      apply (extract_ca_accepts c ev k X).
    + rewrite dict_get_set_neq by exact N; apply Inv.
  - destruct (row_effect r ev n w I ND) as [->|[k [G [_ ->]]]]; [exact Inv|].
    rewrite Ef in G.
    intros a s; destruct (pystr_eq_dec a k) as [->|N].
    + destruct (to_state r) as [s'|]; cbn [apply_row].
      * rewrite dict_get_set_eq; intros [= <-]; rewrite Et; eauto.
      * rewrite dict_get_del_eq by exact ND; discriminate.
    + destruct (to_state r); cbn [apply_row];
        [rewrite dict_get_set_neq|rewrite dict_get_del_neq]; auto.
Qed.

(** X4. In every reachable world an address pending in a Solana state
    is a run of 32 to 44 base58 characters that the decoder accepted,
    and an address pending in a BNB state is [0x] and 40 hex digits. So
    whatever channel extracts an address that is already pending, it is
    the channel of the chain that opened it: the two pipelines never
    meet on one address. *)
Theorem pending_addresses_match_their_chain
        (w : world) (a : pystr) (s : state) :
  reachable w ->
  dict_get (pending_ca_for_analysis w) a = Some s ->
  address_shape (chain_of s) a = true
  /\ forall ev c, extract_ca ev (is_bnb c) = Ok (Some a) -> c = chain_of s.
Proof.
  intros R G.
  assert (Sh : address_shape (chain_of s) a = true).
  { revert a s G; induction R as [|w w' R IH H]; [discriminate|].
    apply (shape_step w w'); [apply reachable_wf; exact R|exact H|exact IH]. }
  split; [exact Sh|].
  intros ev c X; apply extract_ca_accepts in X.
  eapply address_shape_chain; [apply X|exact Sh].
Qed.

Lemma stage_table_trail (r : StageDefinition) (k : pystr) :
  In r stage_table ->
  match to_state r with
  | Some s' =>
      trail s' k
      = (match from_state r with Some s0 => trail s0 k | None => [] end)
          ++ [action (from_state r) (to_state r) k]
      /\ forall c a,
           action (from_state r) (to_state r) k <> (target_group c, a)
  | None =>
      exists c, from_state r = Some (step_two_state c)
                /\ action (from_state r) (to_state r) k = (target_group c, k)
  end.
Proof.
  intros I; cbn [stage_table In] in I.
  decompose [or] I; clear I; subst;
    cbn [to_state from_state action trail app]; try contradiction;
    try (split; [reflexivity|intros [] a; discriminate]).
  - exists SOL; auto.
  - exists BNB; auto.
Qed.

Lemma trail_step (w w' : world) :
  NoDup (keys (pending_ca_for_analysis w)) ->
  handler_step w w' ->
  (forall a s, dict_get (pending_ca_for_analysis w) a = Some s ->
               incl (trail s a) (sent w))
  /\ (forall c a, In (target_group c, a) (sent w) ->
                  incl (trail (step_two_state c) a) (sent w)) ->
  (forall a s, dict_get (pending_ca_for_analysis w') a = Some s ->
               incl (trail s a) (sent w'))
  /\ (forall c a, In (target_group c, a) (sent w') ->
                  incl (trail (step_two_state c) a) (sent w')).
Proof.
  intros ND H [Pend Done];
    destruct H as [chats callback ev n w I _| |c0 n w ca w' S|c0 ca n w _].
  2: split; assumption.
  2: { apply forward_suspended in S; [|exact ND]; destruct S as [G ->].
       cbn [pending_ca_for_analysis sent]; split.
       - intros a s Ga; apply incl_appl; eauto.
       - intros c a Ia; apply in_app_or in Ia; destruct Ia as [Ia|[E|[]]];
           apply incl_appl; [auto|].
         assert (c = c0 /\ a = ca) as [-> ->]
           by (destruct c, c0; inversion E; auto).
         eauto. }
  2: { rewrite forward_after_await_eq; cbn [snd pending_ca_for_analysis sent].
       split; [|exact Done].
       destruct (dict_in ca _); [|exact Pend].
       intros a s; destruct (pystr_eq_dec a ca) as [->|N];
         [rewrite dict_get_del_eq by exact ND; discriminate
         |rewrite dict_get_del_neq by exact N; apply Pend]. }
  apply builders_rows in I; destruct I as [r [I [_ <-]]].
  destruct (row_effect_full r ev n w I ND) as [[-> ->]|[k [G [_ [-> ->]]]]];
    [split; assumption|].
  pose proof (stage_table_trail r k I) as T.
  destruct (to_state r) as [s'|]; cbn [apply_row].
  - destruct T as [T Other]; split.
    + intros a s; destruct (pystr_eq_dec a k) as [->|N].
      * rewrite dict_get_set_eq; intros [= <-]; rewrite T.
        apply incl_app; [apply incl_appl|apply incl_appr, incl_refl].
        destruct (from_state r); [auto|intros x []].
      * rewrite dict_get_set_neq by exact N.
        intros Ga; apply incl_appl; auto.
    + intros c a Ia; apply in_app_or in Ia; destruct Ia as [Ia|[E|[]]];
        [apply incl_appl; auto|elim (Other _ _ E)].
  - destruct T as [c0 [Ef Ea]]; rewrite Ea; rewrite Ef in G; split.
    + intros a s; destruct (pystr_eq_dec a k) as [->|N].
      * rewrite dict_get_del_eq by exact ND; discriminate.
      * rewrite dict_get_del_neq by exact N.
        intros Ga; apply incl_appl; auto.
    + intros c a Ia; apply in_app_or in Ia; destruct Ia as [Ia|[E|[]]];
        apply incl_appl; [auto|].
      assert (c = c0 /\ a = k) as [-> ->]
        by (destruct c, c0; inversion E; auto).
      auto.
Qed.

(** X5. Nothing reaches a destination group that did not go through
    its pipeline: in every reachable world, an address sent to the
    Solana group was before that sent to the scanner agent and named in
    a [/th] and in a [/tt] command to the second agent, an address sent
    to the BNB group was sent to the second agent and named in a [/tt]
    command; and every pending address has behind it the calls that
    lead to its state. *)
Theorem forwarded_went_through_pipeline (w : world) :
  reachable w ->
  (forall a s, dict_get (pending_ca_for_analysis w) a = Some s ->
               incl (trail s a) (sent w))
  /\ (forall c a, In (target_group c, a) (sent w) ->
                  incl (trail (step_two_state c) a) (sent w)).
Proof.
  induction 1 as [|w w' R IH H].
  - split; [discriminate|intros c a []].
  - apply (trail_step w w'); [apply reachable_wf; exact R|exact H|exact IH].
Qed.

Lemma keys_del_split (d : dict) (k : pystr) :
  In k (keys d) ->
  exists l1 l2, keys d = l1 ++ k :: l2 /\ keys (dict_del d k) = l1 ++ l2.
Proof.
  induction d as [|[k' v'] d IH]; cbn [keys map fst In dict_del]; [tauto|].
  intros I; eqb_cases k k'; [exists [], (keys d); auto|].
  destruct IH as [l1 [l2 [E1 E2]]]; [destruct I; [congruence|assumption]|].
  exists (k' :: l1), l2; cbn [map fst app]; unfold keys in *.
  rewrite E1, E2; auto.
Qed.

(** X6. The dictionary keeps the addresses in the order in which they
    were begun: from a reachable world a handler step appends one new
    address at the end, or deletes one address, or leaves the list of
    addresses as it is; advancing an address never moves it. (The
    correlators' loops take the first address in this order.) *)
Theorem dictionary_keeps_begin_order (w w' : world) :
  reachable w -> handler_step w w' ->
  keys (pending_ca_for_analysis w') = keys (pending_ca_for_analysis w)
  \/ (exists k, ~ In k (keys (pending_ca_for_analysis w))
                /\ keys (pending_ca_for_analysis w')
                   = keys (pending_ca_for_analysis w) ++ [k])
  \/ (exists l1 k l2,
         keys (pending_ca_for_analysis w) = l1 ++ k :: l2
         /\ keys (pending_ca_for_analysis w') = l1 ++ l2).
Proof.
  intros R H; destruct (reachable_wf w R) as [ND _].
  destruct H as [chats callback ev n w I _| |c n w ca w' S|c ca n w _].
  2: auto.
  2: { apply forward_suspended in S; [|exact ND]; destruct S as [_ ->].
       auto. }
  2: { rewrite forward_after_await_eq; cbn [snd pending_ca_for_analysis].
       destruct (dict_in ca (pending_ca_for_analysis w)) eqn:D; [|auto].
       right; right.
       destruct (keys_del_split (pending_ca_for_analysis w) ca)
         as [l1 [l2 [E1 E2]]].
       - apply dict_in_true; exact D.
       - exists l1, ca, l2; auto. }
  apply builders_rows in I; destruct I as [r [I [_ <-]]].
  pose proof (stage_table_advances r I) as A.
  destruct (row_effect r ev n w I ND) as [->|[k [G [_ ->]]]]; [auto|].
  destruct (from_state r) as [s0|], (to_state r) as [s'|];
    cbn [apply_row]; try discriminate A.
  - left; apply keys_set_in.
    eapply In_keys, dict_get_Some_In; eauto.
  - right; right.
    destruct (keys_del_split (pending_ca_for_analysis w) k)
      as [l1 [l2 [E1 E2]]]; [eapply In_keys, dict_get_Some_In; eauto|].
    exists l1, k, l2; auto.
  - right; left; exists k.
    apply dict_get_None in G; split; [exact G|].
    apply keys_set_notin; exact G.
Qed.

(** X7. Only a reply of the second agent takes an address out of the
    dictionary: after any update from another chat every address that
    was pending is still pending. There is no expiry. *)
Theorem pending_until_second_agent_replies
        (a : pystr) (ev : event) (n : net) (w : world) :
  reachable w ->
  chat ev <> phanes_bot_username ->
  In a (keys (pending_ca_for_analysis w)) ->
  In a (keys (pending_ca_for_analysis (on_event ev n w))).
Proof.
  intros R N I. pose proof (reachable_wf w R) as W.
  unfold on_event; rewrite event_builders_table.
  refine (proj2 (dispatch_rows_inv
                   (fun w' => wf (pending_ca_for_analysis w')
                              /\ In a (keys (pending_ca_for_analysis w')))
                   stage_table ev n _ _ w (conj W I))).
  - intros r w0 Ir E [W0 I0]; split; [apply row_wf; assumption|].
    destruct (row_effect r ev n w0 Ir (proj1 W0)) as [->|[k [G [_ ->]]]];
      [exact I0|].
    assert (T : exists s', to_state r = Some s').
    { cbn [stage_table In] in Ir.
      decompose [or] Ir; subst; cbn [to_state trigger] in *;
        try contradiction; eauto;
        apply peer_eqb_eq in E; contradiction. }
    destruct T as [s' ->]; cbn [apply_row].
    destruct (in_dec pystr_eq_dec k (keys (pending_ca_for_analysis w0)))
      as [Ik|Ik].
    + rewrite keys_set_in by exact Ik; exact I0.
    + rewrite keys_set_notin by exact Ik; apply in_or_app; auto.
  - intros e w0 H; exact H.
Qed.

End Invariants.

Lemma pending_addresses_match_their_chain_witness :
  reachable sol_step_one_bnb_step_one
  /\ dict_get (pending_ca_for_analysis sol_step_one_bnb_step_one) bsc_usd
     = Some b_waiting_for_response
  /\ address_shape BNB bsc_usd = true
  /\ forall ev c, extract_ca ev (is_bnb c) = Ok (Some bsc_usd) -> c = BNB.
Proof.
  assert (R : reachable sol_step_one_bnb_step_one)
    by (apply run_reachable, reach_initial).
  assert (G : dict_get (pending_ca_for_analysis sol_step_one_bnb_step_one)
                bsc_usd = Some b_waiting_for_response)
    by (vm_compute; reflexivity).
  split; [exact R|]. split; [exact G|].
  exact (pending_addresses_match_their_chain _ _ _ R G).
Defined.

Lemma forwarded_went_through_pipeline_witness :
  reachable (run [(phanes_reply, net_ok)] sol_step_two_bnb_step_one)
  /\ In (target_group SOL, wrapped_sol)
        (sent (run [(phanes_reply, net_ok)] sol_step_two_bnb_step_one))
  /\ incl (trail a_waiting_for_tt_response wrapped_sol)
          (sent (run [(phanes_reply, net_ok)] sol_step_two_bnb_step_one)).
Proof.
  assert (R : reachable (run [(phanes_reply, net_ok)]
                           sol_step_two_bnb_step_one))
    by (apply run_reachable, run_reachable, run_reachable, reach_initial).
  assert (I : In (target_group SOL, wrapped_sol)
                 (sent (run [(phanes_reply, net_ok)]
                          sol_step_two_bnb_step_one)))
    by (vm_compute; auto 10).
  split; [exact R|]. split; [exact I|].
  exact (proj2 (forwarded_went_through_pipeline _ R) SOL wrapped_sol I).
Defined.

Lemma dictionary_keeps_begin_order_witness :
  reachable two_at_scanner
  /\ handler_step two_at_scanner
       (snd (sol_soul_scanner_handler (scanner_reply wrapped_sol)
               net_ok two_at_scanner))
  /\ (keys (pending_ca_for_analysis
              (snd (sol_soul_scanner_handler (scanner_reply wrapped_sol)
                      net_ok two_at_scanner)))
      = keys (pending_ca_for_analysis two_at_scanner)
      \/ (exists k, ~ In k (keys (pending_ca_for_analysis two_at_scanner))
                    /\ keys (pending_ca_for_analysis
                               (snd (sol_soul_scanner_handler
                                       (scanner_reply wrapped_sol)
                                       net_ok two_at_scanner)))
                       = keys (pending_ca_for_analysis two_at_scanner) ++ [k])
      \/ (exists l1 k l2,
             keys (pending_ca_for_analysis two_at_scanner) = l1 ++ k :: l2
             /\ keys (pending_ca_for_analysis
                        (snd (sol_soul_scanner_handler
                                (scanner_reply wrapped_sol)
                                net_ok two_at_scanner)))
                = l1 ++ l2)).
Proof.
  assert (R : reachable two_at_scanner)
    by (apply run_reachable, reach_initial).
  assert (H : handler_step two_at_scanner
                (snd (sol_soul_scanner_handler (scanner_reply wrapped_sol)
                        net_ok two_at_scanner))).
  { apply step_callback with (chats := soul_scanner_bot_username);
      [right; left; reflexivity|reflexivity]. }
  split; [exact R|]. split; [exact H|].
  exact (dictionary_keeps_begin_order _ _ R H).
Defined.

Lemma pending_until_second_agent_replies_witness :
  reachable two_at_scanner
  /\ chat (scanner_reply wrapped_sol) <> phanes_bot_username
  /\ In wrapped_sol (keys (pending_ca_for_analysis two_at_scanner))
  /\ In wrapped_sol
        (keys (pending_ca_for_analysis
                 (on_event (scanner_reply wrapped_sol) net_no_commands
                    two_at_scanner))).
Proof.
  assert (R : reachable two_at_scanner)
    by (apply run_reachable, reach_initial).
  assert (N : chat (scanner_reply wrapped_sol) <> phanes_bot_username)
    by discriminate.
  assert (I : In wrapped_sol (keys (pending_ca_for_analysis two_at_scanner)))
    by (vm_compute; auto).
  split; [exact R|]. split; [exact N|]. split; [exact I|].
  exact (pending_until_second_agent_replies wrapped_sol
           (scanner_reply wrapped_sol) net_no_commands two_at_scanner R N I).
Defined.

(** ** Whole updates *)

Section Updates.

Context {solders : Solders}.

(** X8. A message in a chat no handler is registered on, the two
    destination groups included, changes nothing: what the userbot
    forwards never feeds back into the pipelines. *)
Theorem unwatched_chats_ignored (ev : event) (n : net) (w : world) :
  unwatched (chat ev) = true -> on_event ev n w = w.
Proof.
  intros U; unfold on_event, event_builders; cbn [dispatch_update].
  destruct (chat ev); cbn [unwatched] in U; try discriminate U;
    reflexivity.
Qed.

(** X9. The four handlers of the second agent's chat never read the
    message: two replies of that agent, whatever their text and links,
    have the same effect on the same world. *)
Theorem second_agent_reply_content_ignored
        (ev ev' : event) (n : net) (w : world) :
  chat ev = phanes_bot_username ->
  chat ev' = phanes_bot_username ->
  on_event ev n w = on_event ev' n w.
Proof.
  intros E E'; unfold on_event, event_builders; cbn [dispatch_update].
  rewrite E, E'; reflexivity.
Qed.

(** The source handler on a post that passes the prefilter. *)
Lemma source_begin (c : chain) (ev : event) (n : net) (w : world)
      (a : pystr) :
  startswith (strip (raw_text ev)) (marker c) = true ->
  extract_ca ev (is_bnb c) = Ok (Some a) ->
  dict_get (pending_ca_for_analysis w) a = None ->
  source_handler c ev n w
  = (ran n (first_agent c) a,
     World (pending_ca_for_analysis w ++ [(a, first_state c)])
           (sent w ++ [(first_agent c, a)])
           (logs w ++ [(INFO, PipelineSTART c a)])).
Proof.
  intros P X G.
  pose proof (address_shape_truthy c a (proj1 (extract_ca_accepts c ev a X)))
    as T.
  rewrite extract_ca_eq in X; inversion X as [X'].
  rewrite <- (dict_set_new _ _ (first_state c) G).
  destruct c; cbn [source_handler marker first_agent first_state
                   PipelineSTART] in *;
    [rewrite sol_handler_eq|rewrite bnb_handler_eq]; cbv zeta;
    rewrite P, X'; cbn [negb found]; rewrite T;
    unfold dict_in; rewrite G; reflexivity.
Qed.

(** X10. A post that passes the prefilter and carries an address that
    is not pending opens the instance and records it before the address
    is sent: the new entry goes last in the dictionary, in the first
    state of the chain, whether [send_message] returns or raises. A
    failed send is only logged by the client; the instance stays. *)
Theorem begin_survives_failed_send
        (c : chain) (ev : event) (n : net) (w : world) (a : pystr) :
  chat ev = source_channel c ->
  startswith (strip (raw_text ev)) (marker c) = true ->
  extract_ca ev (is_bnb c) = Ok (Some a) ->
  dict_get (pending_ca_for_analysis w) a = None ->
  pending_ca_for_analysis (on_event ev n w)
  = pending_ca_for_analysis w ++ [(a, first_state c)]
  /\ sent (on_event ev n w) = sent w ++ [(first_agent c, a)]
  /\ logs (on_event ev n w)
     = (logs w ++ [(INFO, PipelineSTART c a)])
         ++ match n (first_agent c) a with
            | None | Some StopPropagation => []
            | Some e => [(ERROR, Unhandled_exception e)]
            end.
Proof.
  intros E P X G.
  rewrite (on_event_source c) by exact E.
  rewrite (source_begin c ev n w a P X G); unfold ran.
  destruct (n (first_agent c) a) as [[]|];
    cbn [log_unhandled pending_ca_for_analysis sent logs];
    rewrite ?app_nil_r; auto.
Qed.

(** X11. A post that passes the prefilter but in which the extractor
    finds no valid address leaves one log record and nothing else. *)
Theorem extraction_miss_only_logs
        (c : chain) (ev : event) (n : net) (w : world) :
  chat ev = source_channel c ->
  startswith (strip (raw_text ev)) (marker c) = true ->
  extract_ca ev (is_bnb c) = Ok None ->
  on_event ev n w
  = World (pending_ca_for_analysis w) (sent w)
          (logs w ++ [(INFO, Skip_no_CA c)]).
Proof.
  intros E P X; rewrite extract_ca_eq in X; inversion X as [X'].
  rewrite (on_event_source c) by exact E.
  destruct c; cbn [source_handler marker Skip_no_CA] in *;
    [rewrite sol_handler_eq|rewrite bnb_handler_eq]; cbv zeta;
    rewrite P, X'; reflexivity.
Qed.

End Updates.

(** ** One address alone, from the post to the forward *)

Section Journeys.

Context {solders : Solders}.













End Journeys.

Lemma unwatched_chats_ignored_witness :
  unwatched (chat (Event sol_target_group wrapped_sol [])) = true
  /\ on_event (Event sol_target_group wrapped_sol []) net_ok two_at_scanner
     = two_at_scanner.
Proof.
  split; [reflexivity|].
  apply (unwatched_chats_ignored (Event sol_target_group wrapped_sol [])
           net_ok two_at_scanner); reflexivity.
Defined.

Lemma second_agent_reply_content_ignored_witness :
  on_event phanes_reply net_ok two_at_step_one
  = on_event (Event phanes_bot_username (lit "Buy now!") [OtherEntity])
             net_ok two_at_step_one.
Proof.
  apply (second_agent_reply_content_ignored phanes_reply
           (Event phanes_bot_username (lit "Buy now!") [OtherEntity])
           net_ok two_at_step_one); reflexivity.
Defined.

Lemma begin_survives_failed_send_witness :
  pending_ca_for_analysis
    (on_event (bnb_post bsc_usd) net_no_commands initial_world)
  = [(bsc_usd, b_waiting_for_response)]
  /\ sent (on_event (bnb_post bsc_usd) net_no_commands initial_world)
     = [(phanes_bot_username, bsc_usd)]
  /\ logs (on_event (bnb_post bsc_usd) net_no_commands initial_world)
     = [(INFO, PipelineB_START bsc_usd);
        (ERROR, Unhandled_exception (RPCError 420))].
Proof.
  apply (begin_survives_failed_send BNB (bnb_post bsc_usd) net_no_commands
           initial_world bsc_usd); vm_compute; reflexivity.
Defined.

Lemma extraction_miss_only_logs_witness :
  on_event (Event channel_a_username (fire ++ lit " gm") []) net_ok
           two_at_scanner
  = World (pending_ca_for_analysis two_at_scanner) (sent two_at_scanner)
          (logs two_at_scanner ++ [(INFO, PipelineA_Skip_no_CA)]).
Proof.
  apply (extraction_miss_only_logs SOL
           (Event channel_a_username (fire ++ lit " gm") []) net_ok
           two_at_scanner); vm_compute; reflexivity.
Defined.



(** ** The prefilter *)

Lemma lstrip_spaces (ws s : pystr) :
  forallb isspace ws = true -> lstrip (ws ++ s) = lstrip s.
Proof.
  induction ws as [|c ws IH]; cbn [forallb app]; [reflexivity|].
  intros H; apply andb_true_iff in H; destruct H as [C W].
  cbn [lstrip]; rewrite C; auto.
Qed.

Lemma lstrip_split (s : pystr) :
  exists ws, s = ws ++ lstrip s /\ forallb isspace ws = true.
Proof.
  induction s as [|c s [ws [E W]]]; [exists []; auto|].
  cbn [lstrip]; destruct (isspace c) eqn:C.
  - exists (c :: ws); cbn [app forallb]; rewrite C, W.
    split; [f_equal; exact E|reflexivity].
  - exists []; auto.
Qed.

Lemma lstrip_head (s : pystr) (c : char) (t : pystr) :
  lstrip s = c :: t -> isspace c = false.
Proof.
  induction s as [|x s IH]; cbn [lstrip]; [discriminate|].
  destruct (isspace x) eqn:X; [exact IH|].
  intros [= <- _]; exact X.
Qed.

Lemma lstrip_visible (c : char) (t : pystr) :
  isspace c = false -> lstrip (c :: t) = c :: t.
Proof. intros C; cbn [lstrip]; rewrite C; reflexivity. Qed.

Lemma lstrip_snoc (l : pystr) (c : char) :
  isspace c = false -> exists l', lstrip (l ++ [c]) = l' ++ [c].
Proof.
  intros C; induction l as [|x l [l' IH]]; cbn [app lstrip].
  - rewrite C; exists []; reflexivity.
  - destruct (isspace x); [eauto|exists (x :: l); reflexivity].
Qed.

Lemma rstrip_head (c : char) (t : pystr) :
  isspace c = false -> exists t', rstrip (c :: t) = c :: t'.
Proof.
  intros C; unfold rstrip; cbn [rev].
  destruct (lstrip_snoc (rev t) c C) as [l' ->].
  rewrite rev_unit; eauto.
Qed.

Lemma startswith_one (g c : char) (t : pystr) :
  startswith (c :: t) [g] = char_eqb g c.
Proof. cbn [startswith]; destruct t; apply andb_true_r. Qed.

(** X14. The prefilter [raw_text.strip().startswith(glyph)] looks at
    the first character that is not white space and at nothing else: a
    message passes exactly when it is some white space, possibly none,
    followed by the marker glyph of the chain; what follows the glyph,
    trailing white space included, plays no part. *)
Theorem prefilter_first_visible_character (c : chain) (s : pystr) :
  startswith (strip s) (marker c) = true
  <-> exists ws rest,
        s = ws ++ marker c ++ rest /\ forallb isspace ws = true.
Proof.
  assert (G : exists g, marker c = [g] /\ isspace g = false)
    by (destruct c; eexists; split; reflexivity).
  destruct G as [g [-> Vg]]; unfold strip; split.
  - intros H; destruct (lstrip_split s) as [ws [E W]].
    destruct (lstrip s) as [|x t] eqn:L; [discriminate H|].
    destruct (rstrip_head x t (lstrip_head s x t L)) as [t' R].
    rewrite R, startswith_one in H; apply N.eqb_eq in H; subst x.
    exists ws, t; auto.
  - intros [ws [rest [-> W]]]; cbn [app].
    rewrite (lstrip_spaces ws _ W), (lstrip_visible g rest Vg).
    destruct (rstrip_head g rest Vg) as [t' ->].
    rewrite startswith_one; apply N.eqb_refl.
Qed.

(** ** Start-up *)

Section StartupFacts.

Variable int : pystr -> result Z.
Variable DEFAULT_API_ID : Z.
Variables DEFAULT_API_HASH DEFAULT_PHONE_NUMBER : pystr.

(** X15. In [main.py], when [API_ID] is not set, is empty, or reads as
    zero, all three credentials are the hard-coded ones: what the
    environment holds under [API_HASH] and [PHONE_NUMBER] is discarded,
    a warning is logged, and [main] goes on to start the client. *)
Theorem missing_api_id_falls_back_to_defaults
        (environ : string -> option pystr) :
  DEFAULT_API_ID <> 0%Z ->
  truthy DEFAULT_API_HASH = true ->
  truthy DEFAULT_PHONE_NUMBER = true ->
  truthy_str (environ "API_ID"%string) = false
  \/ (exists s, environ "API_ID"%string = Some s /\ int s = Ok 0%Z) ->
  load_credentials_main int DEFAULT_API_ID DEFAULT_API_HASH
    DEFAULT_PHONE_NUMBER environ
  = (Credentials (Some DEFAULT_API_ID) (Some DEFAULT_API_HASH)
                 (Some DEFAULT_PHONE_NUMBER),
     [(WARNING, Using_default_credentials)])
  /\ main_proceeds
       (fst (load_credentials_main int DEFAULT_API_ID DEFAULT_API_HASH
               DEFAULT_PHONE_NUMBER environ)) = true.
Proof.
  intros Did Dh Dp Unusable.
  assert (E : load_credentials_main int DEFAULT_API_ID DEFAULT_API_HASH
                DEFAULT_PHONE_NUMBER environ
              = (Credentials (Some DEFAULT_API_ID) (Some DEFAULT_API_HASH)
                             (Some DEFAULT_PHONE_NUMBER),
                 [(WARNING, Using_default_credentials)])).
  { unfold load_credentials_main, parse_api_id; cbv zeta.
    destruct Unusable as [U|[s [-> I]]].
    - destruct (environ "API_ID"%string) as [s|]; [|reflexivity].
      cbn [truthy_str] in U; rewrite U; reflexivity.
    - destruct (truthy s); [rewrite I|]; reflexivity. }
  split; [exact E|].
  rewrite E; unfold main_proceeds; cbn [fst api_id api_hash phone_number
                                         truthy_int truthy_str].
  rewrite Dh, Dp; apply Z.eqb_neq in Did; rewrite Did; reflexivity.
Qed.

(** X16. In both files, an [API_ID] that [int] rejects stops the
    program while the module loads, before [main] is called: the
    exception of [int] is caught and logged, [api_id] stays [None], and
    the construction of the client that follows raises [ValueError],
    whatever the other two variables hold. In [main.py] the fallback to
    the hard-coded credentials is not reached on this path: no warning
    is logged and the hash and the phone number stay what the
    environment holds; in [app.py] they are not read at all. *)
Theorem rejected_api_id_stops_before_main
        (environ : string -> option pystr) (s : pystr) (e : exn) :
  environ "API_ID"%string = Some s ->
  truthy s = true ->
  int s = Raise e ->
  load_credentials_main int DEFAULT_API_ID DEFAULT_API_HASH
    DEFAULT_PHONE_NUMBER environ
  = (Credentials None (environ "API_HASH"%string)
                 (environ "PHONE_NUMBER"%string),
     [(ERROR, FATAL_credential_parsing e)])
  /\ load_credentials_app int environ
     = (Credentials None None None, [(ERROR, FATAL_credential_parsing e)])
  /\ TelegramClient
       (fst (load_credentials_main int DEFAULT_API_ID DEFAULT_API_HASH
               DEFAULT_PHONE_NUMBER environ)) = Raise ValueError
  /\ TelegramClient (fst (load_credentials_app int environ))
     = Raise ValueError.
Proof.
  intros E T I.
  unfold load_credentials_main, load_credentials_app, parse_api_id;
    cbv zeta.
  rewrite E, T, I; cbn [rbind]; auto.
Qed.

(** X17. [app.py] has no fallback: its [main] goes on to start the
    client exactly when [API_ID] is set to something [int] reads as a
    number other than zero and [API_HASH] and [PHONE_NUMBER] are both
    set and not empty. *)
Theorem app_starts_only_with_all_three
        (environ : string -> option pystr) :
  main_proceeds (fst (load_credentials_app int environ)) = true
  <-> (exists s z, environ "API_ID"%string = Some s
                   /\ truthy s = true /\ int s = Ok z /\ z <> 0%Z)
      /\ truthy_str (environ "API_HASH"%string) = true
      /\ truthy_str (environ "PHONE_NUMBER"%string) = true.
Proof.
  unfold load_credentials_app, parse_api_id, main_proceeds; cbv zeta.
  destruct (environ "API_ID"%string) as [s|].
  - destruct (truthy s) eqn:T.
    + destruct (int s) as [z|e] eqn:I; cbn [rbind fst api_id api_hash
                                              phone_number truthy_int].
      * rewrite !andb_true_iff, negb_true_iff, Z.eqb_neq.
        split.
        -- intros [[Nz Hh] Hp]; split; [exists s, z|]; auto.
        -- intros [[s' [z' [[= <-] [_ [I' Nz]]]]] [Hh Hp]].
           rewrite I in I'; inversion I'; subst; auto.
      * cbn; split; [discriminate|].
        intros [[s' [z' [[= <-] [_ [I' _]]]]] _]; congruence.
    + cbn; split; [discriminate|].
      intros [[s' [z' [[= <-] [T' _]]]] _]; congruence.
  - cbn; split; [discriminate|].
    intros [[s' [z' [D _]]] _]; discriminate D.
Qed.

End StartupFacts.

Lemma prefilter_first_visible_character_witness :
  startswith (strip (raw_text (bnb_post_indented bsc_usd))) (marker BNB)
  = true.
Proof.
  apply (proj2 (prefilter_first_visible_character BNB
                  (raw_text (bnb_post_indented bsc_usd)))).
  exists (lit " "), (lit " https://x.io/" ++ bsc_usd); split; reflexivity.
Defined.

Lemma missing_api_id_falls_back_to_defaults_witness :
  load_credentials_main ascii_int 7 (lit "hash") (lit "+1")
    environ_without_id
  = (Credentials (Some 7%Z) (Some (lit "hash")) (Some (lit "+1")),
     [(WARNING, Using_default_credentials)])
  /\ main_proceeds
       (fst (load_credentials_main ascii_int 7 (lit "hash") (lit "+1")
               environ_without_id)) = true.
Proof.
  apply (missing_api_id_falls_back_to_defaults ascii_int 7 (lit "hash")
           (lit "+1") environ_without_id);
    [discriminate|reflexivity|reflexivity|left; reflexivity].
Defined.

Lemma rejected_api_id_stops_before_main_witness :
  load_credentials_main ascii_int 7 (lit "hash") (lit "+1") environ_bad_id
  = (Credentials None (Some (lit "set")) (Some (lit "set")),
     [(ERROR, FATAL_credential_parsing ValueError)])
  /\ TelegramClient
       (fst (load_credentials_main ascii_int 7 (lit "hash") (lit "+1")
               environ_bad_id)) = Raise ValueError
  /\ TelegramClient (fst (load_credentials_app ascii_int environ_bad_id))
     = Raise ValueError.
Proof.
  destruct (rejected_api_id_stops_before_main ascii_int 7 (lit "hash")
              (lit "+1") environ_bad_id (lit "12x4") ValueError
              eq_refl eq_refl eq_refl) as [L [_ [M A]]].
  split; [exact L|]. split; [exact M|exact A].
Defined.

Lemma app_starts_only_with_all_three_witness :
  main_proceeds (fst (load_credentials_app ascii_int environ_complete))
  = true.
Proof.
  apply (proj2 (app_starts_only_with_all_three ascii_int environ_complete)).
  split; [exists (lit "1234"), 1234%Z|split; reflexivity].
  repeat split; discriminate.
Defined.

(** ** Edges of the dispatch and of the patterns *)

Section Edges.

Context {solders : Solders}.

Lemma at_state_set_first (s : state) (d : dict) (x : pystr) :
  at_state s d = None -> at_state s (dict_set d x s) = Some x.
Proof.
  unfold at_state; induction d as [|[k v] d IH];
    cbn [dict_set first_item].
  - intros _; replace (state_eqb s s) with true
      by (symmetry; apply state_eqb_eq; reflexivity).
    reflexivity.
  - destruct (state_eqb v s) eqn:E; [discriminate|].
    intros H; eqb_cases x k; cbn [first_item].
    + replace (state_eqb s s) with true
        by (symmetry; apply state_eqb_eq; reflexivity).
      reflexivity.
    + rewrite E; auto.
Qed.

(** X18. When the [/tt] command of Solana step one cannot be sent, the
    handler never reaches its [raise events.StopPropagation]: the client
    logs the exception and goes on to the next handler, which finds the
    address it has just moved and, no other address waiting there,
    forwards it on the same reply. The address reaches the Solana group
    and leaves the dictionary without any reply to [/tt]. *)
Theorem undelivered_command_forwards_at_once
        (x : pystr) (e : exn) (ev : event) (n : net) (w : world) :
  reachable w ->
  chat ev = phanes_bot_username ->
  at_state a_waiting_for_th_response (pending_ca_for_analysis w) = Some x ->
  at_state a_waiting_for_tt_response (pending_ca_for_analysis w) = None ->
  n phanes_bot_username (lit "/tt " ++ x) = Some e ->
  e <> StopPropagation ->
  dict_get (pending_ca_for_analysis (on_event ev n w)) x = None
  /\ In (sol_target_group, x) (sent (on_event ev n w)).
Proof.
  intros R E A1 A2 Hn Ne. pose proof (reachable_wf w R) as W.
  assert (Tx : truthy x = true).
  { destruct W as [ND T]; rewrite Forall_forall in T; apply T.
    eapply In_keys, dict_get_Some_In, at_state_get; eauto. }
  assert (W1 : wf (dict_set (pending_ca_for_analysis w) x
                            a_waiting_for_tt_response))
    by (apply wf_set; assumption).
  rewrite on_event_phanes by exact E.
  cbn [skipn stage_table map trigger handler].
  rewrite dispatch_update_cons by exact E.
  rewrite sol_phanes_th_response_handler_eq; cbv zeta.
  rewrite found_at_state_wf, A1 by assumption.
  unfold stopped; rewrite Hn.
  assert (Go : forall w1,
             pending_ca_for_analysis w1
             = dict_set (pending_ca_for_analysis w) x
                        a_waiting_for_tt_response ->
             dict_get
               (pending_ca_for_analysis
                  (dispatch_update
                     (map (fun r => (trigger r, handler r))
                          (skipn 3 stage_table)) ev n w1)) x = None
             /\ In (sol_target_group, x)
                   (sent (dispatch_update
                            (map (fun r => (trigger r, handler r))
                                 (skipn 3 stage_table)) ev n w1))).
  { intros w1 P1; cbn [skipn stage_table map trigger handler].
    rewrite dispatch_update_cons by exact E.
    rewrite sol_phanes_tt_response_handler_eq; cbv zeta; rewrite P1.
    rewrite found_at_state_wf, (at_state_set_first _ _ x A2) by assumption.
    unfold dict_in; rewrite dict_get_set_eq.
    rewrite dispatch_update_skip by (rewrite E; reflexivity).
    refine (let P := fun w' : world =>
                       wf (pending_ca_for_analysis w')
                       /\ dict_get (pending_ca_for_analysis w') x = None
                       /\ In (sol_target_group, x) (sent w') in _).
    match goal with
    | |- context [dispatch_update ?bs ev n ?w2] =>
        change bs with (map (fun r => (trigger r, handler r))
                            (skipn 5 stage_table));
        assert (F : P (dispatch_update
                         (map (fun r => (trigger r, handler r))
                              (skipn 5 stage_table)) ev n w2))
    end.
    { apply dispatch_rows_inv; [|intros e0 w0 H; exact H|].
      - intros r w0 Ir Et [W0 [G0 S0]].
        assert (Ir' : In r stage_table /\ from_state r <> None).
        { cbn [skipn stage_table In] in Ir.
          decompose [or] Ir; subst; cbn [from_state]; try contradiction;
            (split; [cbn; auto 10|discriminate]). }
        destruct Ir' as [Ir' Fr].
        split; [apply row_wf; assumption|]; split.
        + rewrite row_frame; [exact G0|exact Ir'|apply W0|].
          rewrite G0; congruence.
        + destruct (row_effect_full r ev n w0 Ir' (proj1 W0))
            as [[_ ->]|[k [_ [_ [_ ->]]]]];
            [exact S0|apply in_or_app; auto].
      - cbn [pending_ca_for_analysis sent]; split; [apply wf_del; exact W1|].
        split; [apply dict_get_del_eq, W1|apply in_or_app; cbn; auto]. }
    destruct F as [_ F]; exact F. }
  destruct e; try (elim Ne; reflexivity); apply Go; reflexivity.
Qed.

Lemma find_none (f : pystr -> bool) (l : list pystr) :
  (forall x, f x = false) -> find f l = None.
Proof.
  intros H; induction l as [|x l IH]; cbn [find]; [reflexivity|].
  rewrite H; exact IH.
Qed.

(** X19. When [solders] cannot be imported the validator answers
    [False] for every candidate, so no Solana post ever opens an
    instance or sends anything: the long pipeline is switched off
    without an error. *)
Theorem missing_solders_disables_solana
        (e : exn) (ev : event) (n : net) (w : world) :
  import_Pubkey = Raise e ->
  chat ev = channel_a_username ->
  extract_ca ev false = Ok None
  /\ pending_ca_for_analysis (on_event ev n w) = pending_ca_for_analysis w
  /\ sent (on_event ev n w) = sent w.
Proof.
  intros Imp E.
  assert (X : Extract ev SOL = None).
  { unfold Extract; rewrite !find_none; auto;
      intros a; cbn [validator]; unfold decodes; rewrite Imp; reflexivity. }
  split; [rewrite (extract_ca_eq ev SOL), X; reflexivity|].
  rewrite (on_event_source SOL) by exact E.
  cbn [source_handler]; rewrite sol_handler_eq; cbv zeta; rewrite X.
  destruct (negb _); cbn; auto.
Qed.

End Edges.

Lemma greedy_exact (cls : char -> bool) (h rest : pystr) :
  forallb cls h = true -> greedy cls (length h) (h ++ rest) = h.
Proof.
  induction h as [|c h IH]; cbn [forallb length app greedy]; [reflexivity|].
  intros H; apply andb_true_iff in H; destruct H as [C H].
  rewrite C, IH by exact H; reflexivity.
Qed.

Lemma findall_from_skip (p : pattern) (l rest : pystr) :
  findall_from p (length l) (l ++ rest) = findall_from p 0 rest.
Proof. induction l as [|c l IH]; cbn [length app findall_from]; auto. Qed.

Lemma findall_from_no_zero (pre s : pystr) :
  forallb (fun c => negb (N.eqb c 48)) pre = true ->
  findall_from evm_address_pattern 0 (pre ++ s)
  = findall_from evm_address_pattern 0 s.
Proof.
  induction pre as [|c pre IH]; cbn [forallb app]; [reflexivity|].
  intros H; apply andb_true_iff in H; destruct H as [C H].
  apply negb_true_iff in C.
  cbn [findall_from]; rewrite evm_address_pattern_eq.
  destruct (pre ++ s) as [|c1 t]; cbv beta iota; [exact (IH H)|].
  rewrite C; cbn [andb]; exact (IH H).
Qed.

(** X20. The BNB pattern has no end anchor. In a post of the BNB
    channel that passes the glyph prefilter, has no text link and whose
    first [0] is the one of a [0x] followed by at least 40 hex digits,
    the first match is [0x] and the first 40 of these digits, whatever
    comes next: a 64-digit transaction hash quoted after the glyph is
    cut to its first 40 digits, the extractor returns that as the
    address and, unless it is pending already, the handler begins an
    instance for it and sends it to the second agent. *)
Theorem hex_run_is_cut_to_an_address
        (solders : Solders) (pre h rest : pystr)
        (ev : event) (n : net) (w : world) :
  chat ev = channel_b_username ->
  hyperlink_urls ev = [] ->
  raw_text ev = pre ++ lit "0x" ++ h ++ rest ->
  startswith (strip (raw_text ev)) coin = true ->
  forallb (fun c => negb (N.eqb c 48)) pre = true ->
  length h = 40 ->
  forallb is_hex h = true ->
  findall evm_address_pattern (raw_text ev)
  = (lit "0x" ++ h) :: findall evm_address_pattern rest
  /\ extract_ca ev true = Ok (Some (lit "0x" ++ h))
  /\ (dict_in (lit "0x" ++ h) (pending_ca_for_analysis w) = false ->
      pending_ca_for_analysis (on_event ev n w)
      = pending_ca_for_analysis w
          ++ [(lit "0x" ++ h, b_waiting_for_response)]
      /\ sent (on_event ev n w)
         = sent w ++ [(phanes_bot_username, lit "0x" ++ h)]).
Proof.
  intros Ch Links Text Glyph Pre L H.
  assert (M : evm_address_pattern (lit "0x" ++ h ++ rest)
              = Some (lit "0x" ++ h)).
  { rewrite evm_address_pattern_eq; cbn [lit app N_of_ascii N.eqb andb].
    change (N_of_ascii "0") with 48%N; change (N_of_ascii "x") with 120%N.
    cbn [N.eqb Pos.eqb andb].
    rewrite <- L, greedy_exact by exact H.
    rewrite L; reflexivity. }
  assert (F : findall evm_address_pattern (raw_text ev)
              = (lit "0x" ++ h) :: findall evm_address_pattern rest).
  { rewrite Text; unfold findall.
    rewrite findall_from_no_zero by exact Pre.
    change (lit "0x" ++ h ++ rest) with (48%N :: (120%N :: h) ++ rest) in *.
    cbn [findall_from]; rewrite M.
    change (pred (length (lit "0x" ++ h))) with (length (120%N :: h)).
    rewrite findall_from_skip; reflexivity. }
  assert (X : extract_ca ev true = Ok (Some (lit "0x" ++ h))).
  { pose proof (extract_ca_eq ev BNB) as X.
    cbn [is_bnb] in X; rewrite X.
    unfold Extract; rewrite Links.
    cbn [flat_map find address_pattern]; rewrite F; reflexivity. }
  split; [exact F|]. split; [exact X|].
  intros D; apply dict_in_false in D.
  rewrite (on_event_source BNB) by exact Ch.
  rewrite (source_begin BNB ev n w (lit "0x" ++ h) Glyph X D).
  unfold ran; cbn [first_agent first_state].
  destruct (n phanes_bot_username (lit "0x" ++ h)) as [[]|];
    cbn [log_unhandled pending_ca_for_analysis sent]; auto.
Qed.

Lemma undelivered_command_forwards_at_once_witness :
  reachable sol_step_one_bnb_step_one
  /\ at_state a_waiting_for_th_response
       (pending_ca_for_analysis sol_step_one_bnb_step_one) = Some wrapped_sol
  /\ dict_get (pending_ca_for_analysis
                 (on_event phanes_reply net_no_commands
                    sol_step_one_bnb_step_one)) wrapped_sol = None
  /\ In (sol_target_group, wrapped_sol)
        (sent (on_event phanes_reply net_no_commands
                 sol_step_one_bnb_step_one)).
Proof.
  assert (R : reachable sol_step_one_bnb_step_one)
    by (apply run_reachable, reach_initial).
  assert (A : at_state a_waiting_for_th_response
                (pending_ca_for_analysis sol_step_one_bnb_step_one)
              = Some wrapped_sol) by (vm_compute; reflexivity).
  split; [exact R|]. split; [exact A|].
  apply (undelivered_command_forwards_at_once wrapped_sol (RPCError 420)
           phanes_reply net_no_commands sol_step_one_bnb_step_one R
           eq_refl A); [vm_compute; reflexivity|reflexivity|discriminate].
Defined.

Lemma missing_solders_disables_solana_witness :
  @extract_ca no_solders (sol_post wrapped_sol) false = Ok None
  /\ pending_ca_for_analysis
       (@on_event no_solders (sol_post wrapped_sol) net_ok initial_world)
     = []
  /\ sent (@on_event no_solders (sol_post wrapped_sol) net_ok initial_world)
     = [].
Proof.
  exact (@missing_solders_disables_solana no_solders ImportError
           (sol_post wrapped_sol) net_ok initial_world eq_refl eq_refl).
Defined.

Lemma hex_run_is_cut_to_an_address_witness :
  extract_ca bnb_post_with_hash true = Ok (Some bsc_usd)
  /\ pending_ca_for_analysis (on_event bnb_post_with_hash net_ok initial_world)
     = [(bsc_usd, b_waiting_for_response)]
  /\ sent (on_event bnb_post_with_hash net_ok initial_world)
     = [(phanes_bot_username, bsc_usd)].
Proof.
  destruct (hex_run_is_cut_to_an_address base58_solders
              (coin ++ lit " tx ") hash_head hash_tail
              bnb_post_with_hash net_ok initial_world
              eq_refl eq_refl eq_refl eq_refl eq_refl eq_refl eq_refl)
    as [_ [X B]].
  destruct (B eq_refl) as [P S].
  split; [exact X|]. split; [exact P|exact S].
Defined.
